(** * Proof-of-work consensus core of Trinity (src/pow.cpp)

    A shallow embedding of [GetNextWorkRequired], [CheckProofOfWork],
    [GetBlockWork] and [GetBlockProof], together with the parts of the
    256-bit integer, of the block index and of the chain parameters they
    rely on, followed by the properties established about them.

    Conventions.
    - [uint256] values are integers in [0, 2^256); every operation that can
      leave that range reduces modulo 2^256.
    - [unsigned int] compact targets are integers in [0, 2^32).
    - [int] and [int64_t] quantities (heights, time spans, percentages) are
      mathematical integers: signed overflow has no defined behaviour in
      C++, and the chain's parameters keep these quantities far from the
      limits of their types.  Signed division is [Z.quot] (it truncates
      toward zero) and signed remainder is [Z.rem].
    - Reading through a null pointer and dividing by zero are faults, made
      explicit by the [result] type.
    - [LogPrintf] calls only report; they are left out. *)

From Stdlib Require Import ZArith Lia Bool List.
Import ListNotations.
Local Open Scope Z_scope.

(** ** Faults and the error monad *)

Inductive fault : Type :=
| NullDereference
| DivisionByZero.

Inductive result (A : Type) : Type :=
| Ok (a : A)
| Fault (f : fault).

Arguments Ok {A} a.
Arguments Fault {A} f.

Definition bind {A B : Type} (m : result A) (k : A -> result B) : result B :=
  match m with
  | Ok a => k a
  | Fault f => Fault f
  end.

Notation "x <- m ;; k" := (bind m (fun x => k))
  (at level 61, m at next level, right associativity).

(** [p->field]: reading through a pointer that may be null. *)
Definition deref {A : Type} (p : option A) : result A :=
  match p with
  | Some a => Ok a
  | None => Fault NullDereference
  end.

(** [a / b] on [int64_t]. *)
Definition int64_div (a b : Z) : result Z :=
  if b =? 0 then Fault DivisionByZero else Ok (Z.quot a b).

(** [a % b] on [int]. *)
Definition int_rem (a b : Z) : result Z :=
  if b =? 0 then Fault DivisionByZero else Ok (Z.rem a b).

(** ** The 256-bit unsigned integer *)

Module U256.

Definition WIDTH : Z := 256.
Definition modulus : Z := 2 ^ WIDTH.

Definition wrap (a : Z) : Z := a mod modulus.

(** Modelled from the spec: [operator+] of [uint256] (uint256.h is not part
    of the sources at hand).  Section 4.1: addition on the fixed-width
    unsigned integer, wrapping. *)
Definition add (a b : Z) : Z := wrap (a + b).

(** Modelled from the spec: [operator*] and [operator*=] of [uint256] with a
    machine integer on the right (same header).  Section 4.1:
    multiplication, wrapping. *)
Definition mul (a b : Z) : Z := wrap (a * b).

(** Modelled from the spec: [operator~] of [uint256] (same header).
    Section 4.1: bitwise complement on the fixed width. *)
Definition lnot (a : Z) : Z := wrap (Z.lnot a).

(** Modelled from the spec: [operator<<=] of [uint256] (same header).
    Section 4.1: left shift; the bits pushed past the width are lost. *)
Definition shl (a n : Z) : Z := wrap (Z.shiftl a n).

(** Modelled from the spec: [operator>>=] of [uint256] (same header).
    Section 4.1: right shift. *)
Definition shr (a n : Z) : Z := Z.shiftr a n.

(** Modelled from the spec: [operator/] and [operator/=] of [uint256] (same
    header).  Section 4.1: division, truncating; a zero divisor is a
    fault. *)
Definition div (a b : Z) : result Z :=
  if wrap b =? 0 then Fault DivisionByZero else Ok (a / wrap b).

(** Modelled from the spec: [bits()], the bit-length of the value (the
    position of its highest set bit plus one, and 0 for 0). *)
Definition bits (a : Z) : Z := if a <=? 0 then 0 else Z.log2 a + 1.

(** Modelled from the spec: what decoding a compact value yields, the value
    and the two out-parameters of [SetCompact].  Section 4.1: the triple
    (magnitude, isNegative, didOverflow). *)
Record decoded : Type := mkDecoded {
  value : Z;
  fNegative : bool;
  fOverflow : bool
}.

(** Modelled from the spec: [SetCompact] (uint256.cpp is not part of the
    sources at hand).  Section 4.1: the low 3 bytes are a mantissa and the
    high byte is a byte-length exponent; a bit set in the mantissa's top
    bit marks the value negative; when the exponent implies a magnitude
    wider than the 256 bits of the type, overflow is reported. *)
Definition SetCompact (nCompact : Z) : decoded :=
  let nSize := Z.shiftr nCompact 24 in
  let nWord := Z.land nCompact 0x007fffff in
  {| value :=
       if nSize <=? 3
       then Z.shiftr nWord (8 * (3 - nSize))
       else shl nWord (8 * (nSize - 3));
     fNegative := negb (Z.land nCompact 0x00800000 =? 0);
     fOverflow :=
       (3 <? nSize) && (modulus <=? Z.shiftl nWord (8 * (nSize - 3))) |}.

(** Modelled from the spec: [GetCompact] (same file).  Section 4.1: the
    inverse of the decoding, normalised to the least exponent whose
    three-byte mantissa keeps its top bit, the sign bit, clear. *)
Definition GetCompact (a : Z) : Z :=
  let nSize := (bits a + 7) / 8 in
  let nCompact :=
    if nSize <=? 3
    then Z.land (Z.shiftl a (8 * (3 - nSize))) 0xffffffff
    else Z.land (Z.shiftr a (8 * (nSize - 3))) 0xffffffff in
  let '(nCompact, nSize) :=
    if negb (Z.land nCompact 0x00800000 =? 0)
    then (Z.shiftr nCompact 8, nSize + 1)
    else (nCompact, nSize) in
  Z.lor nCompact (Z.shiftl nSize 24).

End U256.

(** ** Block index nodes, block headers and chain parameters *)

(** [CBlockIndex], reduced to the members the functions below read.  The
    parent link is the pointer [pprev]; a chain of parents is finite. *)
Local Unset Elimination Schemes.

Inductive CBlockIndex : Type :=
  mkBlockIndex {
    nHeight : Z;
    nTime : Z;
    nBits : Z;
    nAlgo : Z;
    pprev : option CBlockIndex
  }.

Local Set Elimination Schemes.

(** Induction along the parent links. *)
Fixpoint CBlockIndex_chain_ind (P : CBlockIndex -> Prop)
  (Hroot : forall h t b a, P (mkBlockIndex h t b a None))
  (Hlink : forall h t b a parent,
      P parent -> P (mkBlockIndex h t b a (Some parent)))
  (node : CBlockIndex) {struct node} : P node :=
  match node with
  | mkBlockIndex h t b a None => Hroot h t b a
  | mkBlockIndex h t b a (Some parent) =>
      Hlink h t b a parent (CBlockIndex_chain_ind P Hroot Hlink parent)
  end.

(** [CBlockHeader], reduced in the same way. *)
Record CBlockHeader : Type := mkBlockHeader {
  hdr_nTime : Z;
  hdr_nBits : Z;
  hdr_nAlgo : Z
}.

(** Modelled from the spec: [CBlockIndex::GetBlockTime] (chain.h is not part
    of the sources at hand).  Section 3: the block time of the node, as a
    signed 64-bit quantity. *)
Definition GetBlockTime (b : CBlockIndex) : Z := nTime b.

(** Modelled from the spec: [CBlockIndex::GetAlgo] (same header).
    Section 3: the proof-of-work algorithm identifier of the node. *)
Definition GetAlgo (b : CBlockIndex) : Z := nAlgo b.

(** Modelled from the spec: [CBlockHeader::GetBlockTime]
    (primitives/block.h is not part of the sources at hand).  Section 4.3:
    the candidate's timestamp. *)
Definition hdr_GetBlockTime (h : CBlockHeader) : Z := hdr_nTime h.

(** Modelled from the spec: [CBlockHeader::GetAlgo] (same header).
    Section 4.3: the algorithm identifier is read from the candidate
    header. *)
Definition hdr_GetAlgo (h : CBlockHeader) : Z := hdr_nAlgo h.

(** What [Params()] answers (chainparams.h is not part of the sources at
    hand; the members are the ones pow.cpp calls). *)
Record CChainParams : Type := mkChainParams {
  ProofOfWorkLimit : Z -> Z;
  AllowMinDifficultyBlocks : bool;
  SkipProofOfWorkCheck : bool;
  TargetSpacing : Z;
  TargetTimespan : Z;
  Interval : Z;
  BlockDiffAdjustV2 : Z;
  MaxAdjustDownV1 : Z;
  MaxAdjustDownV2 : Z;
  MaxAdjustUpV1 : Z;
  MaxAdjustUpV2 : Z
}.

(** Modelled from the spec: the walk of [CChain::GetLastBlockIndexForAlgo]
    from a node that exists (chain.h is not part of the sources at hand).  Section 4.2: the nearest ancestor of
    the node, the node itself included, whose algorithm identifier is
    [algo]; absent when there is none. *)
Fixpoint lastBlockForAlgo (node : CBlockIndex) (algo : Z) : option CBlockIndex :=
  match node with
  | mkBlockIndex _ _ _ a parent =>
      if a =? algo then Some node
      else match parent with
           | None => None
           | Some p => lastBlockForAlgo p algo
           end
  end.

(** Modelled from the spec: the entry point of the same walk, which takes a
    pointer that may be null (a null node has no ancestor). *)
Definition GetLastBlockIndexForAlgo (pindex : option CBlockIndex) (algo : Z)
  : option CBlockIndex :=
  match pindex with
  | None => None
  | Some node => lastBlockForAlgo node algo
  end.

(** ** src/pow.cpp *)

Section Pow.

(** [Params()]: the parameters of the selected network. *)
Variable params : CChainParams.

(** [CBlockIndex::GetAlgoWorkFactor] (chain.h is not part of the sources
    at hand): the work-normalisation factor of a block. *)
Variable GetAlgoWorkFactor : CBlockIndex -> Z.

(** The loop of lines 39-41: walk back while a parent exists, the height
    is not a multiple of the retarget interval and the bits are the
    limit's.  The conditions are tested left to right, so the remainder
    is computed only when there is a parent. *)
Fixpoint lastNonMinDifficulty (nProofOfWorkLimit : Z) (pindex : CBlockIndex)
  : result CBlockIndex :=
  match pindex with
  | mkBlockIndex h _ b _ None => Ok pindex
  | mkBlockIndex h _ b _ (Some parent) =>
      r <- int_rem h (Interval params) ;;
      if negb (r =? 0) && (b =? nProofOfWorkLimit)
      then lastNonMinDifficulty nProofOfWorkLimit parent
      else Ok pindex
  end.

(** The loop of lines 53-54, run for at most [n] rounds: each round
    replaces [pindexFirst] by the nearest same-algorithm ancestor of its
    parent, and the loop ends early once [pindexFirst] is null. *)
Fixpoint findFirst (algo : Z) (n : nat) (pindexFirst : option CBlockIndex)
  : option CBlockIndex :=
  match n with
  | O => pindexFirst
  | S n' =>
      match pindexFirst with
      | None => None
      | Some first =>
          findFirst algo n' (GetLastBlockIndexForAlgo (pprev first) algo)
      end
  end.

(** Lines 61-62. *)
Definition nMaxAdjustDown (pindexLast : CBlockIndex) : Z :=
  if nHeight pindexLast + 1 >=? BlockDiffAdjustV2 params
  then MaxAdjustDownV2 params else MaxAdjustDownV1 params.

Definition nMaxAdjustUp (pindexLast : CBlockIndex) : Z :=
  if nHeight pindexLast + 1 >=? BlockDiffAdjustV2 params
  then MaxAdjustUpV2 params else MaxAdjustUpV1 params.

(** Lines 63-69: the bounds and the two tests that limit the adjustment
    step.  The division by the constant 100 cannot fault. *)
Definition limitAdjustmentStep (pindexLast : CBlockIndex) (nActualTimespan : Z) : Z :=
  let nMinActualTimespan :=
    Z.quot (TargetTimespan params * (100 - nMaxAdjustUp pindexLast)) 100 in
  let nMaxActualTimespan :=
    Z.quot (TargetTimespan params * (100 + nMaxAdjustDown pindexLast)) 100 in
  let nActualTimespan :=
    if nActualTimespan <? nMinActualTimespan
    then nMinActualTimespan else nActualTimespan in
  let nActualTimespan :=
    if nActualTimespan >? nMaxActualTimespan
    then nMaxActualTimespan else nActualTimespan in
  nActualTimespan.

(** Lines 72-94: the retarget itself. *)
Definition retarget (algo : Z) (prevBits : Z) (nActualTimespan : Z) : result Z :=
  let bnNew := U256.value (U256.SetCompact prevBits) in
  let fShift := U256.bits bnNew >? 235 in
  let bnNew := if fShift then U256.shr bnNew 1 else bnNew in
  let bnNew := U256.mul bnNew nActualTimespan in
  bnNew <- U256.div bnNew (TargetTimespan params) ;;
  let bnNew := if fShift then U256.shl bnNew 1 else bnNew in
  let bnNew :=
    if bnNew >? ProofOfWorkLimit params algo
    then ProofOfWorkLimit params algo else bnNew in
  Ok (U256.GetCompact bnNew).

(** Lines 22-94: what [GetNextWorkRequired] does below the height test of
    lines 19-20. *)
Definition GetNextWorkRequired_below (pindexLast : option CBlockIndex)
  (pblock : CBlockHeader) : result Z :=
  let algo := hdr_GetAlgo pblock in
  let nProofOfWorkLimit := U256.GetCompact (ProofOfWorkLimit params algo) in
  match pindexLast with
  | None => Ok nProofOfWorkLimit                                (* line 26 *)
  | Some pindexLast =>
      if AllowMinDifficultyBlocks params
      then
        if hdr_GetBlockTime pblock
             >? GetBlockTime pindexLast + TargetSpacing params * 2
        then Ok nProofOfWorkLimit
        else
          pindex <- lastNonMinDifficulty nProofOfWorkLimit pindexLast ;;
          Ok (nBits pindex)
      else
        let pindexPrev := GetLastBlockIndexForAlgo (Some pindexLast) algo in
        nAveragingInterval <-
          int64_div (TargetTimespan params) (TargetSpacing params) ;;
        let pindexFirst :=
          findFirst algo (Z.to_nat (nAveragingInterval - 1)) pindexPrev in
        match pindexFirst with
        | None => Ok nProofOfWorkLimit
        | Some first =>
            prev <- deref pindexPrev ;;
            let nActualTimespan := GetBlockTime prev - GetBlockTime first in
            let nActualTimespan :=
              limitAdjustmentStep pindexLast nActualTimespan in
            retarget algo (nBits prev) nActualTimespan
        end
  end.

(** Lines 16-95.  The test of line 19 reads [pindexLast->nHeight] before the
    null test of line 26. *)
Definition GetNextWorkRequired (pindexLast : option CBlockIndex)
  (pblock : CBlockHeader) : result Z :=
  last <- deref pindexLast ;;
  if (915235 <=? nHeight last) && (nHeight last <=? 955000)
  then Ok (hdr_nBits pblock)
  else GetNextWorkRequired_below pindexLast pblock.

Definition CheckProofOfWork (hash : Z) (nBits : Z) (algo : Z) : bool :=
  if SkipProofOfWorkCheck params then true
  else
    let d := U256.SetCompact nBits in
    let bnTarget := U256.value d in
    if U256.fNegative d || (bnTarget =? 0) || U256.fOverflow d
       || (bnTarget >? ProofOfWorkLimit params algo)
    then false
    else if hash >? bnTarget then false
    else true.

(** The expression [(~bnTarget / (bnTarget + 1)) + 1] of lines 131 and 146. *)
Definition workOfTarget (bnTarget : Z) : result Z :=
  q <- U256.div (U256.lnot bnTarget) (U256.add bnTarget 1) ;;
  Ok (U256.add q 1).

Definition GetBlockWork (block : CBlockIndex) : result Z :=
  let d := U256.SetCompact (nBits block) in
  let bnTarget := U256.value d in
  if U256.fNegative d || U256.fOverflow d || (bnTarget =? 0)
  then Ok 0
  else workOfTarget bnTarget.

Definition GetBlockProof (block : CBlockIndex) : result Z :=
  let d := U256.SetCompact (nBits block) in
  let bnTarget := U256.value d in
  if U256.fNegative d || U256.fOverflow d || (bnTarget =? 0)
  then Ok 0
  else
    w <- workOfTarget bnTarget ;;
    Ok (U256.mul w (GetAlgoWorkFactor block)).

End Pow.

(** ** The vocabulary of the specification *)

(** One same-algorithm step backward: from a node to the nearest ancestor of
    its parent that was mined with [algo]. *)
Definition sameAlgoStep (algo : Z) (p : option CBlockIndex) : option CBlockIndex :=
  match p with
  | None => None
  | Some node => GetLastBlockIndexForAlgo (pprev node) algo
  end.

(** The backward walk of the minimum-difficulty rule, as the specification
    words it: from a node, move to the parent while a parent exists, the
    height is not a multiple of the retarget interval and the bits are the
    limit's; [walkStopsAt interval limitBits node stop] says that the walk
    started at [node] stops at [stop]. *)
Inductive walkStopsAt (interval limitBits : Z) : CBlockIndex -> CBlockIndex -> Prop :=
| walk_stop : forall node,
    ~ (pprev node <> None
       /\ Z.rem (nHeight node) interval <> 0
       /\ nBits node = limitBits) ->
    walkStopsAt interval limitBits node node
| walk_step : forall node parent stop,
    pprev node = Some parent ->
    Z.rem (nHeight node) interval <> 0 ->
    nBits node = limitBits ->
    walkStopsAt interval limitBits parent stop ->
    walkStopsAt interval limitBits node stop.

(** The clamp of a time span into the interval [[lo, hi]]. *)
Definition clampTimespan (lo hi t : Z) : Z := Z.min hi (Z.max lo t).

(** The retargeted value of section 4.3, before it is encoded: shift right
    by one when the bit-length exceeds 235, multiply by the actual time span,
    divide by the target time span, shift back, and cap at the limit; on the
    256-bit type. *)
Definition retargetedTarget (limit target actualTimespan targetTimespan : Z) : Z :=
  let shifted := 235 <? U256.bits target in
  let t := if shifted then Z.shiftr target 1 else target in
  let t := ((t * actualTimespan) mod 2 ^ 256) / (targetTimespan mod 2 ^ 256) in
  let t := if shifted then (Z.shiftl t 1) mod 2 ^ 256 else t in
  if limit <? t then limit else t.

(** The same value computed on unbounded integers. *)
Definition retargetedTargetExact (limit target actualTimespan targetTimespan : Z) : Z :=
  let shifted := 235 <? U256.bits target in
  let t := if shifted then target / 2 else target in
  let t := (t * actualTimespan) / targetTimespan in
  let t := if shifted then 2 * t else t in
  if limit <? t then limit else t.


(** A block index node that carries the given bits. *)
Definition blockWithBits (bits : Z) : CBlockIndex := mkBlockIndex 0 0 bits 0 None.



(** [ancestorOrSelf node a]: [a] is [node] or is reached from [node] along
    the parent links. *)
Inductive ancestorOrSelf : CBlockIndex -> CBlockIndex -> Prop :=
| ancestor_self : forall node, ancestorOrSelf node node
| ancestor_parent : forall node parent a,
    pprev node = Some parent ->
    ancestorOrSelf parent a ->
    ancestorOrSelf node a.

(** The number of nodes on the chain that ends at [node], [node] included. *)
Fixpoint chainLength (node : CBlockIndex) : nat :=
  match node with
  | mkBlockIndex _ _ _ _ None => 1
  | mkBlockIndex _ _ _ _ (Some parent) => S (chainLength parent)
  end.

(** ** Sample data *)

(** A main network in the style of the multi-algorithm chains this code
    descends from: blocks of one algorithm 150 seconds apart, a window of ten
    of them, a limit of 236 bits. *)
Definition sampleParams : CChainParams :=
  {| ProofOfWorkLimit := fun _ => 2 ^ 236 - 1;
     AllowMinDifficultyBlocks := false;
     SkipProofOfWorkCheck := false;
     TargetSpacing := 150;
     TargetTimespan := 1500;
     Interval := 10;
     BlockDiffAdjustV2 := 766000;
     MaxAdjustDownV1 := 4;
     MaxAdjustDownV2 := 16;
     MaxAdjustUpV1 := 2;
     MaxAdjustUpV2 := 8 |}.

(** The same network with the minimum-difficulty rule of test networks. *)
Definition sampleTestParams : CChainParams :=
  {| ProofOfWorkLimit := ProofOfWorkLimit sampleParams;
     AllowMinDifficultyBlocks := true;
     SkipProofOfWorkCheck := false;
     TargetSpacing := TargetSpacing sampleParams;
     TargetTimespan := TargetTimespan sampleParams;
     Interval := Interval sampleParams;
     BlockDiffAdjustV2 := BlockDiffAdjustV2 sampleParams;
     MaxAdjustDownV1 := MaxAdjustDownV1 sampleParams;
     MaxAdjustDownV2 := MaxAdjustDownV2 sampleParams;
     MaxAdjustUpV1 := MaxAdjustUpV1 sampleParams;
     MaxAdjustUpV2 := MaxAdjustUpV2 sampleParams |}.

(** A chain of [n + 1] blocks of one algorithm ending at the given height and
    time, [spacing] seconds apart, all with the same bits. *)
Fixpoint sampleChain (n : nat) (height time spacing bits algo : Z) : CBlockIndex :=
  mkBlockIndex height time bits algo
    match n with
    | O => None
    | S n' => Some (sampleChain n' (height - 1) (time - spacing) spacing bits algo)
    end.

Definition sampleHeader : CBlockHeader :=
  {| hdr_nTime := 1500000150; hdr_nBits := 0x1c0ffff0; hdr_nAlgo := 0 |}.

Definition sampleWorkFactor (b : CBlockIndex) : Z :=
  if nAlgo b =? 0 then 1 else 4096.

(** * Properties *)

(** ** Small facts about the error monad and the tests *)

Lemma bind_Ok_inv {A B : Type} (m : result A) (k : A -> result B) (b : B) :
  bind m k = Ok b -> exists a, m = Ok a /\ k a = Ok b.
Proof.
  destruct m as [a | f]; simpl; intros H.
  - exists a. split; [reflexivity | exact H].
  - discriminate H.
Qed.

Lemma override_test_true (h : Z) :
  915235 <= h <= 955000 -> (915235 <=? h) && (h <=? 955000) = true.
Proof.
  intros [Hlo Hhi]. apply andb_true_iff. split; apply Z.leb_le; assumption.
Qed.

Lemma override_test_false (h : Z) :
  h < 915235 \/ 955000 < h -> (915235 <=? h) && (h <=? 955000) = false.
Proof.
  intros H. apply andb_false_iff.
  destruct H as [H | H]; [left | right]; apply Z.leb_gt; exact H.
Qed.

Lemma GetNextWorkRequired_outside (params : CChainParams)
  (last : CBlockIndex) (pblock : CBlockHeader) :
  nHeight last < 915235 \/ 955000 < nHeight last ->
  GetNextWorkRequired params (Some last) pblock
  = GetNextWorkRequired_below params (Some last) pblock.
Proof.
  intros H. unfold GetNextWorkRequired. simpl.
  rewrite (override_test_false _ H). reflexivity.
Qed.

(** ** The proof validator *)

(** C1.  [CheckProofOfWork] succeeds whenever the network skips the check.
    Otherwise it succeeds exactly when the decoding of the bits reports
    neither negative nor overflow, the target is not zero and not above the
    algorithm's limit, and the hash is at most the target.  Hence, for bits
    that decode to a valid target within the limit, it succeeds exactly when
    the hash is at most the target; and a target that is zero, or above the
    limit by one unit or more, fails for every hash. *)
Theorem CheckProofOfWork_decides (params : CChainParams) (hash nBits algo : Z) :
  let d := U256.SetCompact nBits in
  let limit := ProofOfWorkLimit params algo in
  (SkipProofOfWorkCheck params = true ->
     CheckProofOfWork params hash nBits algo = true)
  /\ (SkipProofOfWorkCheck params = false ->
      (CheckProofOfWork params hash nBits algo = true <->
         U256.fNegative d = false /\ U256.fOverflow d = false
         /\ U256.value d <> 0 /\ U256.value d <= limit
         /\ hash <= U256.value d))
  /\ (SkipProofOfWorkCheck params = false ->
      U256.fNegative d = false -> U256.fOverflow d = false ->
      U256.value d <> 0 -> U256.value d <= limit ->
      (CheckProofOfWork params hash nBits algo = true <-> hash <= U256.value d))
  /\ (SkipProofOfWorkCheck params = false ->
      U256.value d = 0 \/ limit + 1 <= U256.value d ->
      CheckProofOfWork params hash nBits algo = false).
Proof.
  intros d limit.
  assert (Hmain : SkipProofOfWorkCheck params = false ->
      (CheckProofOfWork params hash nBits algo = true <->
         U256.fNegative d = false /\ U256.fOverflow d = false
         /\ U256.value d <> 0 /\ U256.value d <= limit
         /\ hash <= U256.value d)).
  { intros Hskip. unfold CheckProofOfWork. rewrite Hskip.
    fold d. fold limit. clearbody d limit.
    destruct (U256.fNegative d); simpl.
    { split; [discriminate | intros [H _]; discriminate H]. }
    destruct (Z.eqb_spec (U256.value d) 0) as [Hz | Hz]; simpl.
    { split; [discriminate | intros (_ & _ & H & _); contradiction]. }
    destruct (U256.fOverflow d); simpl.
    { split; [discriminate | intros (_ & H & _); discriminate H]. }
    destruct (U256.value d >? limit) eqn:Hgt.
    { apply Z.gtb_lt in Hgt.
      split; [discriminate | intros (_ & _ & _ & H & _); lia]. }
    assert (Hle : U256.value d <= limit).
    { destruct (Z.gtb_spec (U256.value d) limit); [discriminate | lia]. }
    destruct (hash >? U256.value d) eqn:Hh.
    { apply Z.gtb_lt in Hh.
      split; [discriminate | intros (_ & _ & _ & _ & H); lia]. }
    assert (Hhle : hash <= U256.value d).
    { destruct (Z.gtb_spec hash (U256.value d)); [discriminate | lia]. }
    split; [intros _; repeat split; assumption | reflexivity]. }
  split; [| split; [exact Hmain | split]].
  - intros Hskip. unfold CheckProofOfWork. rewrite Hskip. reflexivity.
  - intros Hskip Hn Ho Hz Hl. rewrite (Hmain Hskip). tauto.
  - intros Hskip Hbad.
    apply not_true_is_false. intros Hc.
    apply (Hmain Hskip) in Hc. destruct Hc as (_ & _ & Hz & Hl & _).
    destruct Hbad as [Hbad | Hbad]; [contradiction | lia].
Qed.

(** ** The height override and the null test *)

(** C3.  When the height of the last node lies in [915235, 955000], both
    ends included, [GetNextWorkRequired] returns the candidate header's own
    bits, whatever the parameters and the chain.  At the heights 915234 and
    955001, as at every height outside the range, it returns what the
    computation of lines 22-94 gives, and that result does not change when
    the candidate's bits do. *)
Theorem GetNextWorkRequired_override (params : CChainParams)
  (last : CBlockIndex) (pblock : CBlockHeader) :
  (915235 <= nHeight last <= 955000 ->
     GetNextWorkRequired params (Some last) pblock = Ok (hdr_nBits pblock))
  /\ (nHeight last = 915234 \/ nHeight last = 955001
      \/ nHeight last < 915235 \/ 955000 < nHeight last ->
      GetNextWorkRequired params (Some last) pblock
      = GetNextWorkRequired_below params (Some last) pblock
      /\ forall bits',
          GetNextWorkRequired params (Some last)
            (mkBlockHeader (hdr_nTime pblock) bits' (hdr_nAlgo pblock))
          = GetNextWorkRequired params (Some last) pblock).
Proof.
  split.
  - intros Hin. unfold GetNextWorkRequired. simpl.
    rewrite (override_test_true _ Hin). reflexivity.
  - intros Hout.
    assert (Hout' : nHeight last < 915235 \/ 955000 < nHeight last) by lia.
    split.
    + apply GetNextWorkRequired_outside. exact Hout'.
    + intros bits'. rewrite !GetNextWorkRequired_outside by exact Hout'.
      reflexivity.
Qed.

(** C4.  With no last node, line 19 reads the height through the null
    pointer before line 26 tests for it: the call faults instead of
    returning the limit, although the computation below the height test
    would return the limit's compact form. *)
Theorem GetNextWorkRequired_genesis (params : CChainParams) (pblock : CBlockHeader) :
  GetNextWorkRequired params None pblock = Fault NullDereference
  /\ GetNextWorkRequired_below params None pblock
     = Ok (U256.GetCompact (ProofOfWorkLimit params (hdr_GetAlgo pblock))).
Proof.
  split; reflexivity.
Qed.

(** C10.  When minimum-difficulty blocks are not permitted and the last node
    is present with a height outside [915235, 955000], two candidate headers
    with the same algorithm identifier get the same result, whatever their
    timestamps and bits. *)
Theorem GetNextWorkRequired_ignores_candidate (params : CChainParams)
  (last : CBlockIndex) (h1 h2 : CBlockHeader) :
  AllowMinDifficultyBlocks params = false ->
  nHeight last < 915235 \/ 955000 < nHeight last ->
  hdr_GetAlgo h1 = hdr_GetAlgo h2 ->
  GetNextWorkRequired params (Some last) h1
  = GetNextWorkRequired params (Some last) h2.
Proof.
  intros Hmin Hout Halgo.
  rewrite !GetNextWorkRequired_outside by exact Hout.
  unfold GetNextWorkRequired_below.
  rewrite Hmin, Halgo. reflexivity.
Qed.

(** ** The minimum-difficulty rule *)

Lemma lastNonMinDifficulty_walks (params : CChainParams) (limitBits : Z) :
  Interval params <> 0 ->
  forall node, exists stop,
    lastNonMinDifficulty params limitBits node = Ok stop
    /\ walkStopsAt (Interval params) limitBits node stop.
Proof.
  intros Hint node.
  induction node as [h t b a | h t b a parent IH] using CBlockIndex_chain_ind.
  - exists (mkBlockIndex h t b a None). split; [reflexivity |].
    apply walk_stop. simpl. intros [Hp _]. apply Hp. reflexivity.
  - cbn [lastNonMinDifficulty]. unfold int_rem.
    destruct (Z.eqb_spec (Interval params) 0) as [Hz | _]; [contradiction |].
    cbn [bind].
    destruct (Z.eqb_spec (Z.rem h (Interval params)) 0) as [Hr | Hr];
      cbn [negb andb].
    + exists (mkBlockIndex h t b a (Some parent)). split; [reflexivity |].
      apply walk_stop. simpl. intros (_ & Hr' & _). contradiction.
    + destruct (Z.eqb_spec b limitBits) as [Hb | Hb].
      * destruct IH as [stop [Hrun Hwalk]]. exists stop. split; [exact Hrun |].
        apply walk_step with (parent := parent); simpl; auto.
      * exists (mkBlockIndex h t b a (Some parent)). split; [reflexivity |].
        apply walk_stop. simpl. intros (_ & _ & Hb'). contradiction.
Qed.

(** The walk stops at one node only. *)
Lemma walkStopsAt_unique (interval limitBits : Z) (node s1 s2 : CBlockIndex) :
  walkStopsAt interval limitBits node s1 ->
  walkStopsAt interval limitBits node s2 ->
  s1 = s2.
Proof.
  intros H1. revert s2.
  induction H1 as [node Hstop | node parent stop Hp Hr Hb Hw IH]; intros s2 H2.
  - inversion H2 as [n Hstop2 | n parent2 stop2 Hp2 Hr2 Hb2 Hw2]; subst.
    + reflexivity.
    + exfalso. apply Hstop. rewrite Hp2. repeat split; congruence.
  - inversion H2 as [n Hstop2 | n parent2 stop2 Hp2 Hr2 Hb2 Hw2]; subst.
    + exfalso. apply Hstop2. rewrite Hp. repeat split; congruence.
    + apply IH. congruence.
Qed.

(** C6.  With minimum-difficulty blocks permitted and a last node outside
    the override range: when the candidate's time exceeds the last node's by
    more than twice the target spacing, the result is the limit's compact
    form; otherwise it is the bits of the node at which the backward walk
    from the last node stops, the walk going on while a parent exists, the
    height is not a multiple of the retarget interval, and the bits equal the
    limit's compact form. *)
Theorem GetNextWorkRequired_min_difficulty (params : CChainParams)
  (last : CBlockIndex) (pblock : CBlockHeader) :
  AllowMinDifficultyBlocks params = true ->
  nHeight last < 915235 \/ 955000 < nHeight last ->
  Interval params <> 0 ->
  let limitBits := U256.GetCompact (ProofOfWorkLimit params (hdr_GetAlgo pblock)) in
  (nTime last + 2 * TargetSpacing params < hdr_nTime pblock ->
     GetNextWorkRequired params (Some last) pblock = Ok limitBits)
  /\ (hdr_nTime pblock <= nTime last + 2 * TargetSpacing params ->
      exists stop,
        walkStopsAt (Interval params) limitBits last stop
        /\ (forall stop', walkStopsAt (Interval params) limitBits last stop' ->
                          stop' = stop)
        /\ GetNextWorkRequired params (Some last) pblock = Ok (nBits stop)).
Proof.
  intros Hmin Hout Hint limitBits.
  rewrite (GetNextWorkRequired_outside _ _ _ Hout).
  unfold GetNextWorkRequired_below. rewrite Hmin. fold limitBits.
  unfold hdr_GetBlockTime, GetBlockTime.
  split.
  - intros Hlate.
    destruct (Z.gtb_spec (hdr_nTime pblock)
                (nTime last + TargetSpacing params * 2)) as [_ | Hle];
      [reflexivity | lia].
  - intros Hearly.
    destruct (Z.gtb_spec (hdr_nTime pblock)
                (nTime last + TargetSpacing params * 2)) as [Hgt | _];
      [lia |].
    destruct (lastNonMinDifficulty_walks params limitBits Hint last)
      as [stop [Hrun Hwalk]].
    exists stop. split; [exact Hwalk | split].
    + intros stop' Hwalk'.
      exact (walkStopsAt_unique _ _ _ _ _ Hwalk' Hwalk).
    + rewrite Hrun. reflexivity.
Qed.

(** ** The averaging window *)

Lemma sameAlgoStep_iter_None (algo : Z) (n : nat) :
  Nat.iter n (sameAlgoStep algo) None = None.
Proof.
  induction n as [| n IH]; simpl; [reflexivity | rewrite IH; reflexivity].
Qed.

Lemma findFirst_iter (algo : Z) (n : nat) (p : option CBlockIndex) :
  findFirst algo n p = Nat.iter n (sameAlgoStep algo) p.
Proof.
  revert p. induction n as [| n IH]; intros p; [reflexivity |].
  rewrite Nat.iter_succ_r. destruct p as [node |].
  - cbn [findFirst]. rewrite IH. reflexivity.
  - cbn [findFirst sameAlgoStep]. rewrite sameAlgoStep_iter_None. reflexivity.
Qed.

Lemma sameAlgoStep_iter_stays_None (algo : Z) (k n : nat) (p : option CBlockIndex) :
  (k <= n)%nat ->
  Nat.iter k (sameAlgoStep algo) p = None ->
  Nat.iter n (sameAlgoStep algo) p = None.
Proof.
  intros Hle Hk. replace n with ((n - k) + k)%nat by lia.
  rewrite Nat.iter_add, Hk. apply sameAlgoStep_iter_None.
Qed.

(** What the normal path computes once the window is found. *)
Lemma GetNextWorkRequired_normal_path (params : CChainParams)
  (last prev first : CBlockIndex) (pblock : CBlockHeader) :
  AllowMinDifficultyBlocks params = false ->
  nHeight last < 915235 \/ 955000 < nHeight last ->
  TargetSpacing params <> 0 ->
  GetLastBlockIndexForAlgo (Some last) (hdr_GetAlgo pblock) = Some prev ->
  Nat.iter (Z.to_nat (Z.quot (TargetTimespan params) (TargetSpacing params) - 1))
    (sameAlgoStep (hdr_GetAlgo pblock)) (Some prev) = Some first ->
  GetNextWorkRequired params (Some last) pblock
  = retarget params (hdr_GetAlgo pblock) (nBits prev)
      (limitAdjustmentStep params last (nTime prev - nTime first)).
Proof.
  intros Hmin Hout Hsp Hprev Hfirst.
  rewrite (GetNextWorkRequired_outside _ _ _ Hout).
  unfold GetNextWorkRequired_below. rewrite Hmin, Hprev.
  unfold int64_div.
  destruct (Z.eqb_spec (TargetSpacing params) 0) as [Hz | _]; [contradiction |].
  cbn [bind]. rewrite findFirst_iter, Hfirst. reflexivity.
Qed.

(** C7.  On the normal path the window start is reached from [prev], the
    nearest same-algorithm ancestor of the last node, by [windowLength - 1]
    further same-algorithm steps backward, where [windowLength] is the
    target time span divided by the target spacing, truncating.  If at any
    point of that walk, its starting point included, there is no
    same-algorithm ancestor, the result is the limit's compact form and not
    a fault; otherwise the retarget runs on the two ends of the window. *)
Theorem GetNextWorkRequired_window (params : CChainParams)
  (last : CBlockIndex) (pblock : CBlockHeader) :
  AllowMinDifficultyBlocks params = false ->
  nHeight last < 915235 \/ 955000 < nHeight last ->
  TargetSpacing params <> 0 ->
  let algo := hdr_GetAlgo pblock in
  let limitBits := U256.GetCompact (ProofOfWorkLimit params algo) in
  let windowLength := Z.quot (TargetTimespan params) (TargetSpacing params) in
  let steps := Z.to_nat (windowLength - 1) in
  let prev := GetLastBlockIndexForAlgo (Some last) algo in
  (forall k, (k <= steps)%nat ->
     Nat.iter k (sameAlgoStep algo) prev = None ->
     GetNextWorkRequired params (Some last) pblock = Ok limitBits)
  /\ (forall p f,
        prev = Some p ->
        Nat.iter steps (sameAlgoStep algo) prev = Some f ->
        GetNextWorkRequired params (Some last) pblock
        = retarget params algo (nBits p)
            (limitAdjustmentStep params last (nTime p - nTime f))).
Proof.
  intros Hmin Hout Hsp algo limitBits windowLength steps prev.
  split.
  - intros k Hk Hnone.
    assert (Hend : Nat.iter steps (sameAlgoStep algo) prev = None)
      by exact (sameAlgoStep_iter_stays_None _ _ _ _ Hk Hnone).
    rewrite (GetNextWorkRequired_outside _ _ _ Hout).
    unfold GetNextWorkRequired_below. rewrite Hmin. unfold int64_div.
    destruct (Z.eqb_spec (TargetSpacing params) 0) as [Hz | _]; [contradiction |].
    cbn [bind]. rewrite findFirst_iter.
    fold algo. fold windowLength. fold steps. fold prev.
    rewrite Hend. reflexivity.
  - intros p f Hp Hf. rewrite Hp in Hf.
    apply GetNextWorkRequired_normal_path; assumption.
Qed.

(** ** The limit on the adjustment step *)

Lemma limitAdjustmentStep_clamp (params : CChainParams) (last : CBlockIndex) (t : Z) :
  let v2 := BlockDiffAdjustV2 params <=? nHeight last + 1 in
  let up := if v2 then MaxAdjustUpV2 params else MaxAdjustUpV1 params in
  let down := if v2 then MaxAdjustDownV2 params else MaxAdjustDownV1 params in
  limitAdjustmentStep params last t
  = clampTimespan (Z.quot (TargetTimespan params * (100 - up)) 100)
      (Z.quot (TargetTimespan params * (100 + down)) 100) t.
Proof.
  intros v2 up down.
  unfold limitAdjustmentStep, nMaxAdjustUp, nMaxAdjustDown, clampTimespan.
  rewrite Z.geb_leb. fold v2. fold up. fold down.
  set (lo := Z.quot (TargetTimespan params * (100 - up)) 100).
  set (hi := Z.quot (TargetTimespan params * (100 + down)) 100).
  destruct (Z.ltb_spec t lo) as [H1 | H1].
  - destruct (Z.gtb_spec lo hi) as [H2 | H2]; lia.
  - destruct (Z.gtb_spec t hi) as [H2 | H2]; lia.
Qed.

(** C5.  On the normal path the bounds come from the V2 rule set when the
    height of the last node plus one is at least the V2 threshold and from
    the V1 rule set otherwise; the time span between [prev] and the window
    start is clamped between [targetTimespan * (100 - maxAdjustUp) / 100]
    and [targetTimespan * (100 + maxAdjustDown) / 100], both divisions
    truncating, and the retarget runs on the clamped value. *)
Theorem GetNextWorkRequired_adjustment_bounds (params : CChainParams)
  (last prev first : CBlockIndex) (pblock : CBlockHeader) :
  AllowMinDifficultyBlocks params = false ->
  nHeight last < 915235 \/ 955000 < nHeight last ->
  TargetSpacing params <> 0 ->
  GetLastBlockIndexForAlgo (Some last) (hdr_GetAlgo pblock) = Some prev ->
  Nat.iter (Z.to_nat (Z.quot (TargetTimespan params) (TargetSpacing params) - 1))
    (sameAlgoStep (hdr_GetAlgo pblock)) (Some prev) = Some first ->
  let v2 := BlockDiffAdjustV2 params <=? nHeight last + 1 in
  let maxAdjustUp := if v2 then MaxAdjustUpV2 params else MaxAdjustUpV1 params in
  let maxAdjustDown := if v2 then MaxAdjustDownV2 params else MaxAdjustDownV1 params in
  let minTimespan := Z.quot (TargetTimespan params * (100 - maxAdjustUp)) 100 in
  let maxTimespan := Z.quot (TargetTimespan params * (100 + maxAdjustDown)) 100 in
  let actualTimespan := nTime prev - nTime first in
  let clamped := clampTimespan minTimespan maxTimespan actualTimespan in
  GetNextWorkRequired params (Some last) pblock
  = retarget params (hdr_GetAlgo pblock) (nBits prev) clamped
  /\ (minTimespan <= maxTimespan ->
      minTimespan <= clamped <= maxTimespan
      /\ (actualTimespan < minTimespan -> clamped = minTimespan)
      /\ (maxTimespan < actualTimespan -> clamped = maxTimespan)
      /\ (minTimespan <= actualTimespan <= maxTimespan -> clamped = actualTimespan)).
Proof.
  intros Hmin Hout Hsp Hprev Hfirst v2 up down lo hi actual clamped.
  split.
  - rewrite (GetNextWorkRequired_normal_path _ _ _ _ _ Hmin Hout Hsp Hprev Hfirst).
    rewrite limitAdjustmentStep_clamp. reflexivity.
  - intros Hle. unfold clamped, clampTimespan. repeat split; lia.
Qed.

(** ** The compact codec *)

Lemma pow2_pos (n : Z) : 0 <= n -> 0 < 2 ^ n.
Proof. intros H. apply Z.pow_pos_nonneg; lia. Qed.

Lemma mantissa_range (c : Z) : 0 <= Z.land c 0x007fffff < 2 ^ 23.
Proof.
  change 0x007fffff with (Z.ones 23). rewrite Z.land_ones by lia.
  apply Z.mod_pos_bound. reflexivity.
Qed.

Lemma modulus_eq : U256.modulus = 2 ^ 256.
Proof. reflexivity. Qed.

Lemma wrap_small (a : Z) : 0 <= a < 2 ^ 256 -> U256.wrap a = a.
Proof. intros H. unfold U256.wrap. rewrite modulus_eq. apply Z.mod_small. exact H. Qed.

(** A decoding that does not report overflow is a value of the type, and
    not the largest one. *)
Lemma SetCompact_value_range (c : Z) :
  U256.fOverflow (U256.SetCompact c) = false ->
  0 <= U256.value (U256.SetCompact c)
  /\ U256.value (U256.SetCompact c) + 1 < 2 ^ 256.
Proof.
  unfold U256.SetCompact. cbn [U256.value U256.fOverflow].
  pose proof (mantissa_range c) as Hw.
  set (nWord := Z.land c 0x007fffff) in *.
  set (nSize := Z.shiftr c 24).
  intros Hovf.
  destruct (Z.leb_spec nSize 3) as [Hs | Hs].
  - rewrite Z.shiftr_div_pow2 by lia.
    pose proof (pow2_pos (8 * (3 - nSize)) ltac:(lia)) as Hp.
    assert (Hq : 0 <= nWord / 2 ^ (8 * (3 - nSize)) <= nWord).
    { split; [apply Z.div_pos; lia |].
      apply Z.div_le_upper_bound; [lia | nia]. }
    assert (2 ^ 23 + 1 < 2 ^ 256) by reflexivity.
    lia.
  - destruct (Z.ltb_spec 3 nSize) as [_ | Hc]; [| lia].
    cbn [andb] in Hovf. apply Z.leb_gt in Hovf. rewrite modulus_eq in Hovf.
    rewrite Z.shiftl_mul_pow2 in * by lia.
    pose proof (pow2_pos (8 * (nSize - 3)) ltac:(lia)) as Hp.
    unfold U256.shl. rewrite Z.shiftl_mul_pow2 by lia.
    rewrite wrap_small by nia.
    replace (8 * (nSize - 3)) with (8 + 8 * (nSize - 4)) in * by lia.
    rewrite Z.pow_add_r in * by lia.
    pose proof (pow2_pos (8 * (nSize - 4)) ltac:(lia)) as Hp'.
    set (q := nWord * 2 ^ (8 * (nSize - 4))).
    assert (Hq : nWord * (2 ^ 8 * 2 ^ (8 * (nSize - 4))) = 256 * q)
      by (unfold q; change (2 ^ 8) with 256; ring).
    rewrite Hq in *.
    change (2 ^ 256) with (256 * 2 ^ 248) in *.
    assert (0 <= q) by (unfold q; nia).
    split; [lia |].
    assert (q < 2 ^ 248) by lia. lia.
Qed.

Lemma land_pow2 (a n : Z) :
  0 <= n -> Z.land a (2 ^ n) = if Z.testbit a n then 2 ^ n else 0.
Proof.
  intros Hn. apply Z.bits_inj'. intros m Hm.
  rewrite Z.land_spec, Z.pow2_bits_eqb by exact Hn.
  destruct (Z.eqb_spec n m) as [-> | Hne].
  - destruct (Z.testbit a m); [| rewrite Z.bits_0; reflexivity].
    rewrite Z.pow2_bits_true by exact Hm. reflexivity.
  - rewrite andb_false_r.
    destruct (Z.testbit a n); [| rewrite Z.bits_0; reflexivity].
    rewrite Z.pow2_bits_false by exact Hne. reflexivity.
Qed.

Lemma sign_bit_test (c : Z) :
  0 <= c < 2 ^ 24 -> (Z.land c 0x00800000 =? 0) = (c <? 2 ^ 23).
Proof.
  intros Hc. change 0x00800000 with (2 ^ 23).
  rewrite land_pow2 by lia. rewrite Z.testbit_eqb by lia.
  change (2 ^ 24) with 16777216 in Hc. change (2 ^ 23) with 8388608.
  destruct (Z.eqb_spec ((c / 8388608) mod 2) 1) as [H1 | H1];
    destruct (Z.ltb_spec c 8388608) as [H2 | H2];
    try reflexivity; exfalso; Z.div_mod_to_equations; lia.
Qed.

Lemma low32_small (c : Z) : 0 <= c < 2 ^ 24 -> Z.land c 0xffffffff = c.
Proof.
  intros Hc. change 0xffffffff with (Z.ones 32). rewrite Z.land_ones by lia.
  apply Z.mod_small. change (2 ^ 24) with 16777216 in Hc.
  change (2 ^ 32) with 4294967296. lia.
Qed.

Lemma compact_size (m s : Z) :
  0 <= m < 2 ^ 23 -> Z.shiftr (Z.lor m (Z.shiftl s 24)) 24 = s.
Proof.
  intros Hm. rewrite Z.shiftr_lor, Z.shiftr_shiftl_l by lia.
  rewrite Z.sub_diag, Z.shiftl_0_r, Z.shiftr_div_pow2 by lia.
  rewrite Z.div_small; [reflexivity |].
  change (2 ^ 23) with 8388608 in Hm. change (2 ^ 24) with 16777216. lia.
Qed.

Lemma compact_mantissa (m s : Z) :
  0 <= m < 2 ^ 23 -> Z.land (Z.lor m (Z.shiftl s 24)) 0x007fffff = m.
Proof.
  intros Hm. change 0x007fffff with (Z.ones 23).
  rewrite Z.land_ones by lia. apply Z.bits_inj'. intros i Hi.
  rewrite Z.testbit_mod_pow2 by lia. rewrite Z.lor_spec.
  destruct (Z.ltb_spec i 23) as [Hlt | Hge]; cbn [andb].
  - rewrite Z.shiftl_spec_low by lia. apply orb_false_r.
  - symmetry. destruct (Z.eq_dec m 0) as [-> | Hne]; [apply Z.bits_0 |].
    apply Z.bits_above_log2; [lia |].
    apply Z.log2_lt_pow2; [lia |].
    apply Z.lt_le_trans with (2 ^ 23); [lia |].
    apply Z.pow_le_mono_r; lia.
Qed.

(** Decoding a compact value assembled from a mantissa and a size. *)
Lemma SetCompact_assembled (m s : Z) :
  0 <= m < 2 ^ 23 ->
  U256.value (U256.SetCompact (Z.lor m (Z.shiftl s 24)))
  = if s <=? 3 then Z.shiftr m (8 * (3 - s)) else U256.shl m (8 * (s - 3)).
Proof.
  intros Hm. unfold U256.SetCompact. cbn [U256.value].
  rewrite compact_size, compact_mantissa by exact Hm. reflexivity.
Qed.

Lemma byte_size_bounds (x : Z) :
  0 < x ->
  let n := (U256.bits x + 7) / 8 in
  1 <= n /\ 2 ^ (8 * (n - 1)) <= x < 2 ^ (8 * n).
Proof.
  intros Hx n. unfold U256.bits in n.
  destruct (Z.leb_spec x 0) as [Hle | _]; [lia |].
  pose proof (Z.log2_spec x Hx) as [Hlo Hhi].
  pose proof (Z.log2_nonneg x) as Hl.
  assert (Hn : 8 * n <= Z.log2 x + 1 + 7 < 8 * n + 8).
  { unfold n. pose proof (Z.div_mod (Z.log2 x + 1 + 7) 8 ltac:(lia)).
    pose proof (Z.mod_pos_bound (Z.log2 x + 1 + 7) 8 ltac:(lia)). lia. }
  split; [lia |]. split.
  - apply Z.le_trans with (2 ^ Z.log2 x); [| exact Hlo].
    apply Z.pow_le_mono_r; lia.
  - apply Z.lt_le_trans with (2 ^ Z.succ (Z.log2 x)); [exact Hhi |].
    apply Z.pow_le_mono_r; lia.
Qed.

(** The shape of an encoding: a mantissa below the sign bit, a size, and the
    value they stand for, which is the encoded value cut down to the
    mantissa's three bytes. *)
Lemma GetCompact_shape (x : Z) :
  0 <= x < 2 ^ 256 ->
  exists m s,
    U256.GetCompact x = Z.lor m (Z.shiftl s 24)
    /\ 0 <= m < 2 ^ 23
    /\ (if s <=? 3 then Z.shiftr m (8 * (3 - s)) else m * 2 ^ (8 * (s - 3))) <= x
    /\ (if s <=? 3 then 0 <= Z.shiftr m (8 * (3 - s)) else 0 <= m * 2 ^ (8 * (s - 3))).
Proof.
  intros [Hx0 Hx256].
  destruct (Z.eq_dec x 0) as [-> | Hne].
  { exists 0, 0. repeat split; vm_compute; congruence. }
  assert (Hx : 0 < x) by lia.
  pose proof (byte_size_bounds x Hx) as Hn. cbv zeta in Hn.
  unfold U256.GetCompact.
  set (n := (U256.bits x + 7) / 8) in *.
  destruct Hn as (Hn1 & Hlo & Hhi).
  destruct (Z.leb_spec n 3) as [Hn3 | Hn3].
  - (* at most three bytes: the mantissa is the value, shifted up *)
    assert (Hc0 : 0 <= x * 2 ^ (8 * (3 - n)) < 2 ^ 24).
    { pose proof (pow2_pos (8 * (3 - n)) ltac:(lia)).
      split; [nia |].
      replace 24 with (8 * n + 8 * (3 - n)) by lia.
      rewrite Z.pow_add_r by lia. nia. }
    rewrite Z.shiftl_mul_pow2 by lia.
    rewrite low32_small by exact Hc0.
    rewrite sign_bit_test by exact Hc0.
    assert (Hcases : n = 1 \/ n = 2 \/ n = 3) by lia.
    destruct (Z.ltb_spec (x * 2 ^ (8 * (3 - n))) (2 ^ 23)) as [Hlt | Hge];
      cbn [negb].
    + exists (x * 2 ^ (8 * (3 - n))), n.
      split; [reflexivity |]. split; [lia |].
      destruct (Z.leb_spec n 3) as [_ | Hc]; [| lia].
      rewrite Z.shiftr_div_pow2 by lia.
      rewrite Z.div_mul by (pose proof (pow2_pos (8 * (3 - n))); lia).
      lia.
    + exists (Z.shiftr (x * 2 ^ (8 * (3 - n))) 8), (n + 1).
      split; [reflexivity |].
      rewrite !Z.shiftr_div_pow2 by lia.
      destruct Hcases as [-> | [-> | ->]]; cbn [Z.leb Z.add Z.compare Pos.compare Pos.add Pos.succ Pos.compare_cont];
        change (8 * (3 - 1)) with 16 in *; change (8 * (3 - 2)) with 8 in *;
        change (8 * (3 - 3)) with 0 in *; change (8 * (1 - 1)) with 0 in *;
        change (8 * (2 - 1)) with 8 in *; change (8 * (3 - 1)) with 16 in *;
        change (2 ^ 0) with 1 in *; change (2 ^ 8) with 256 in *;
        change (2 ^ 16) with 65536 in *; change (2 ^ 23) with 8388608 in *;
        change (2 ^ 24) with 16777216 in *.
      * rewrite Z.shiftr_div_pow2 by lia. change (8 * (3 - 2)) with 8.
        change (2 ^ 8) with 256. Z.div_mod_to_equations; lia.
      * rewrite Z.shiftr_div_pow2 by lia. change (8 * (3 - 3)) with 0.
        change (2 ^ 0) with 1. Z.div_mod_to_equations; lia.
      * change (8 * (4 - 3)) with 8. change (2 ^ 8) with 256.
        Z.div_mod_to_equations; lia.
  - (* more than three bytes: the mantissa is the top three bytes *)
    set (k := 8 * (n - 3)) in *.
    pose proof (pow2_pos k ltac:(lia)) as Hk.
    assert (Hc0 : 0 <= x / 2 ^ k < 2 ^ 24).
    { split; [apply Z.div_pos; lia |].
      apply Z.div_lt_upper_bound; [lia |].
      replace (8 * n) with (k + 24) in Hhi by lia.
      rewrite Z.pow_add_r in Hhi by lia. lia. }
    rewrite Z.shiftr_div_pow2 by lia.
    rewrite low32_small by exact Hc0.
    rewrite sign_bit_test by exact Hc0.
    destruct (Z.ltb_spec (x / 2 ^ k) (2 ^ 23)) as [Hlt | Hge]; cbn [negb].
    + exists (x / 2 ^ k), n.
      split; [reflexivity |]. split; [lia |].
      destruct (Z.leb_spec n 3) as [Hc | _]; [lia |]. fold k.
      pose proof (Z.mul_div_le x (2 ^ k) Hk). nia.
    + exists (Z.shiftr (x / 2 ^ k) 8), (n + 1).
      split; [reflexivity |].
      rewrite Z.shiftr_div_pow2 by lia.
      assert (Hm : 0 <= x / 2 ^ k / 2 ^ 8 < 2 ^ 23).
      { change (2 ^ 8) with 256. change (2 ^ 23) with 8388608.
        change (2 ^ 24) with 16777216 in Hc0.
        generalize dependent (x / 2 ^ k). intros c Hc0 Hge.
        Z.div_mod_to_equations; lia. }
      split; [exact Hm |].
      destruct (Z.leb_spec (n + 1) 3) as [Hc | _]; [lia |].
      replace (8 * (n + 1 - 3)) with (k + 8) by lia.
      rewrite Z.pow_add_r by lia.
      rewrite Z.div_div by lia.
      pose proof (pow2_pos 8 ltac:(lia)) as H8.
      pose proof (Z.mul_div_le x (2 ^ k * 2 ^ 8) ltac:(nia)).
      split; [nia |].
      apply Z.mul_nonneg_nonneg; [| nia].
      apply Z.div_pos; nia.
Qed.

(** Encoding and decoding never gives more than the encoded value. *)
Lemma SetCompact_GetCompact_le (x : Z) :
  0 <= x < 2 ^ 256 ->
  0 <= U256.value (U256.SetCompact (U256.GetCompact x)) <= x.
Proof.
  intros Hx.
  destruct (GetCompact_shape x Hx) as (m & s & Heq & Hm & Hle & Hnn).
  rewrite Heq, SetCompact_assembled by exact Hm.
  destruct (Z.leb_spec s 3) as [Hs | Hs]; [lia |].
  unfold U256.shl. rewrite Z.shiftl_mul_pow2 by lia.
  rewrite wrap_small by lia. lia.
Qed.

(** Known values of the codec. *)
Example SetCompact_0x1d00ffff :
  U256.SetCompact 0x1d00ffff = U256.mkDecoded (0xffff * 2 ^ 208) false false.
Proof. vm_compute. reflexivity. Qed.

Example SetCompact_0x01123456 :
  U256.SetCompact 0x01123456 = U256.mkDecoded 0x12 false false.
Proof. vm_compute. reflexivity. Qed.

Example SetCompact_0x04923456_negative :
  U256.fNegative (U256.SetCompact 0x04923456) = true.
Proof. vm_compute. reflexivity. Qed.

Example SetCompact_0xff123456_overflow :
  U256.fOverflow (U256.SetCompact 0xff123456) = true.
Proof. vm_compute. reflexivity. Qed.

Example GetCompact_0x80 : U256.GetCompact 0x80 = 0x02008000.
Proof. vm_compute. reflexivity. Qed.

Example GetCompact_0x12345678 : U256.GetCompact 0x12345678 = 0x04123456.
Proof. vm_compute. reflexivity. Qed.

Example GetCompact_limit : U256.GetCompact (2 ^ 236 - 1) = 0x1e0fffff.
Proof. vm_compute. reflexivity. Qed.

(** ** The work of a block *)

Lemma lnot_value (t : Z) : 0 <= t < 2 ^ 256 -> U256.lnot t = 2 ^ 256 - 1 - t.
Proof.
  intros Ht. unfold U256.lnot, U256.wrap. rewrite modulus_eq.
  symmetry. apply Z.mod_unique with (q := -1); [left; lia |].
  unfold Z.lnot. lia.
Qed.

Lemma complement_quotient (t : Z) :
  0 <= t -> (2 ^ 256 - 1 - t) / (t + 1) + 1 = 2 ^ 256 / (t + 1).
Proof.
  intros Ht.
  replace (2 ^ 256 - 1 - t) with (2 ^ 256 + (-1) * (t + 1)) by lia.
  rewrite Z.div_add by lia. lia.
Qed.

Lemma work_range (t : Z) : 0 < t -> 0 <= 2 ^ 256 / (t + 1) < 2 ^ 256.
Proof.
  intros Ht. split.
  - apply Z.div_pos; lia.
  - apply Z.div_lt_upper_bound; [lia |].
    assert (0 < 2 ^ 256) by reflexivity. nia.
Qed.

Lemma workOfTarget_value (t : Z) :
  0 < t -> t + 1 < 2 ^ 256 ->
  workOfTarget t = Ok (U256.lnot t / U256.add t 1 + 1)
  /\ U256.lnot t = 2 ^ 256 - 1 - t
  /\ U256.add t 1 = t + 1
  /\ U256.lnot t / U256.add t 1 + 1 = 2 ^ 256 / (t + 1).
Proof.
  intros Ht Hlt.
  assert (Hadd : U256.add t 1 = t + 1)
    by (unfold U256.add; apply wrap_small; lia).
  assert (Hnot : U256.lnot t = 2 ^ 256 - 1 - t) by (apply lnot_value; lia).
  assert (Hq : U256.lnot t / U256.add t 1 + 1 = 2 ^ 256 / (t + 1)).
  { rewrite Hadd, Hnot. apply complement_quotient. lia. }
  repeat split; try assumption.
  unfold workOfTarget, U256.div.
  rewrite (wrap_small (U256.add t 1)) by (rewrite Hadd; lia).
  destruct (Z.eqb_spec (U256.add t 1) 0) as [Hz | _]; [lia |].
  cbn [bind]. f_equal. unfold U256.add at 1.
  apply wrap_small. rewrite Hq. apply work_range. exact Ht.
Qed.

Lemma invalid_target_test (d : U256.decoded) :
  U256.fNegative d = true \/ U256.fOverflow d = true \/ U256.value d = 0 ->
  U256.fNegative d || U256.fOverflow d || (U256.value d =? 0) = true.
Proof.
  intros [H | [H | H]]; rewrite H.
  - reflexivity.
  - apply orb_true_iff. left. apply orb_true_r.
  - apply orb_true_r.
Qed.

Lemma valid_target_test (d : U256.decoded) :
  U256.fNegative d = false -> U256.fOverflow d = false -> U256.value d <> 0 ->
  U256.fNegative d || U256.fOverflow d || (U256.value d =? 0) = false.
Proof.
  intros Hn Ho Hz. rewrite Hn, Ho. cbn [orb]. apply Z.eqb_neq. exact Hz.
Qed.

(** C8, amended.  When the decoding of the bits reports negative or
    overflow, or gives zero, [GetBlockWork] and [GetBlockProof] return 0.
    Otherwise [GetBlockWork] returns [(~target / (target + 1)) + 1] computed
    on the 256-bit type, which is the integer quotient of 2^256 by
    [target + 1], and [GetBlockProof] returns that quantity multiplied by the
    work factor of the block and reduced modulo 2^256, the multiplication
    being the one of the 256-bit type: it is the plain product exactly when
    that product lies in [0, 2^256). *)
Theorem GetBlockWork_GetBlockProof_value (GetAlgoWorkFactor : CBlockIndex -> Z)
  (block : CBlockIndex) :
  let d := U256.SetCompact (nBits block) in
  let target := U256.value d in
  (U256.fNegative d = true \/ U256.fOverflow d = true \/ target = 0 ->
     GetBlockWork block = Ok 0
     /\ GetBlockProof GetAlgoWorkFactor block = Ok 0)
  /\ (U256.fNegative d = false -> U256.fOverflow d = false -> target <> 0 ->
      GetBlockWork block = Ok (U256.lnot target / U256.add target 1 + 1)
      /\ U256.lnot target = 2 ^ 256 - 1 - target
      /\ U256.add target 1 = target + 1
      /\ U256.lnot target / U256.add target 1 + 1 = 2 ^ 256 / (target + 1)
      /\ GetBlockProof GetAlgoWorkFactor block
         = Ok ((2 ^ 256 / (target + 1) * GetAlgoWorkFactor block) mod 2 ^ 256)
      /\ (GetBlockProof GetAlgoWorkFactor block
          = Ok (2 ^ 256 / (target + 1) * GetAlgoWorkFactor block)
          <-> 0 <= 2 ^ 256 / (target + 1) * GetAlgoWorkFactor block < 2 ^ 256)).
Proof.
  intros d target. split.
  - intros Hbad. unfold GetBlockWork, GetBlockProof. fold d.
    rewrite (invalid_target_test d Hbad). split; reflexivity.
  - intros Hn Ho Hz.
    pose proof (SetCompact_value_range (nBits block) Ho) as [H0 Hlt].
    fold d in H0, Hlt. fold target in H0, Hlt.
    destruct (workOfTarget_value target ltac:(lia) Hlt)
      as (Hw & Hnot & Hadd & Hq).
    unfold GetBlockWork, GetBlockProof. fold d.
    rewrite (valid_target_test d Hn Ho Hz). fold target.
    rewrite Hw. cbn [bind].
    split; [reflexivity |]. split; [exact Hnot |]. split; [exact Hadd |].
    split; [exact Hq |]. rewrite Hq.
    assert (Hp : Ok (U256.mul (2 ^ 256 / (target + 1)) (GetAlgoWorkFactor block))
                 = Ok ((2 ^ 256 / (target + 1) * GetAlgoWorkFactor block) mod 2 ^ 256))
      by reflexivity.
    split; [exact Hp |]. rewrite Hp.
    set (product := 2 ^ 256 / (target + 1) * GetAlgoWorkFactor block).
    assert (Hmod : 0 <= product mod 2 ^ 256 < 2 ^ 256)
      by (apply Z.mod_pos_bound; reflexivity).
    split.
    + intros Heq.
      assert (Heq' : product mod 2 ^ 256 = product) by congruence.
      rewrite Heq' in Hmod. exact Hmod.
    + intros Hfit. rewrite Z.mod_small by exact Hfit. reflexivity.
Qed.

(** Counterexample to C8 as first stated, with the plain product: the bits
    0x03000fff decode to the valid target 4095, whose work is 2^244; with a
    work factor of 4096 the product is 2^256, which the type does not hold,
    and [GetBlockProof] returns 0. *)
Lemma GetBlockProof_product_wraps :
  U256.SetCompact (nBits (mkBlockIndex 10 0 0x03000fff 1 None))
  = U256.mkDecoded 4095 false false
  /\ GetBlockWork (mkBlockIndex 10 0 0x03000fff 1 None) = Ok (2 ^ 244)
  /\ sampleWorkFactor (mkBlockIndex 10 0 0x03000fff 1 None) = 4096
  /\ GetBlockProof sampleWorkFactor (mkBlockIndex 10 0 0x03000fff 1 None) = Ok 0
  /\ GetBlockProof sampleWorkFactor (mkBlockIndex 10 0 0x03000fff 1 None)
     <> Ok (2 ^ 244 * 4096).
Proof.
  split; [vm_compute; reflexivity |].
  split; [vm_compute; reflexivity |].
  split; [reflexivity |].
  split; [vm_compute; reflexivity |].
  intros H. vm_compute in H. discriminate H.
Qed.




(** ** The retarget *)

Lemma retargetedTarget_range (limit target ats tts : Z) :
  0 <= limit -> 0 <= target -> 0 < tts < 2 ^ 256 ->
  0 <= retargetedTarget limit target ats tts <= limit.
Proof.
  intros Hl Ht Htts. unfold retargetedTarget.
  set (shifted := 235 <? U256.bits target).
  set (t1 := if shifted then Z.shiftr target 1 else target).
  rewrite (Z.mod_small tts) by lia.
  assert (H256 : 0 < 2 ^ 256) by reflexivity.
  assert (Hq : 0 <= (t1 * ats) mod 2 ^ 256 / tts).
  { apply Z.div_pos; [| lia]. apply Z.mod_pos_bound. exact H256. }
  set (t2 := (t1 * ats) mod 2 ^ 256 / tts) in *.
  assert (H3 : 0 <= (if shifted then Z.shiftl t2 1 mod 2 ^ 256 else t2)).
  { destruct shifted; [apply Z.mod_pos_bound; exact H256 | exact Hq]. }
  destruct (Z.ltb_spec limit (if shifted then Z.shiftl t2 1 mod 2 ^ 256 else t2));
    lia.
Qed.

Lemma retarget_value (params : CChainParams) (algo prevBits ats : Z) :
  0 < TargetTimespan params < 2 ^ 256 ->
  retarget params algo prevBits ats
  = Ok (U256.GetCompact
          (retargetedTarget (ProofOfWorkLimit params algo)
             (U256.value (U256.SetCompact prevBits)) ats (TargetTimespan params))).
Proof.
  intros Htts. unfold retarget, U256.div, retargetedTarget.
  unfold U256.mul, U256.shl, U256.shr, U256.wrap. rewrite modulus_eq.
  rewrite (Z.mod_small (TargetTimespan params)) by lia.
  destruct (Z.eqb_spec (TargetTimespan params) 0) as [Hz | _]; [lia |].
  cbn [bind]. rewrite !Z.gtb_ltb. reflexivity.
Qed.

Lemma bits_le_bound (t n : Z) : 0 <= n -> 0 <= t -> U256.bits t <= n -> t < 2 ^ n.
Proof.
  intros Hn Ht Hb. unfold U256.bits in Hb.
  destruct (Z.leb_spec t 0) as [Hle | Hpos].
  - pose proof (pow2_pos n Hn). lia.
  - pose proof (Z.log2_spec t Hpos) as [_ Hhi].
    apply Z.lt_le_trans with (2 ^ Z.succ (Z.log2 t)); [exact Hhi |].
    apply Z.pow_le_mono_r; lia.
Qed.

(** With a target of at most 236 bits, a time span below 2^21 seconds and a
    target time span of at least 2 seconds, no step of the retarget leaves
    the 256 bits of the type: the halving before the multiplication is what
    makes room for the product. *)
Lemma retargetedTarget_exact (limit target ats tts : Z) :
  0 <= target < 2 ^ 236 -> 0 <= ats < 2 ^ 21 -> 2 <= tts < 2 ^ 256 ->
  retargetedTarget limit target ats tts
  = retargetedTargetExact limit target ats tts.
Proof.
  intros Ht Hats Htts. unfold retargetedTarget, retargetedTargetExact.
  rewrite (Z.mod_small tts) by lia.
  rewrite Z.shiftr_div_pow2 by lia. change (2 ^ 1) with 2.
  assert (H256 : 2 ^ 256 = 2 ^ 235 * 2 ^ 21) by reflexivity.
  assert (H235 : 0 < 2 ^ 235) by reflexivity.
  assert (H21 : 0 < 2 ^ 21) by reflexivity.
  assert (H236 : 2 ^ 236 = 2 * 2 ^ 235) by reflexivity.
  destruct (Z.ltb_spec 235 (U256.bits target)) as [Hshift | Hkeep].
  - assert (Hhalf : 0 <= target / 2 < 2 ^ 235).
    { split; [apply Z.div_pos; lia |].
      apply Z.div_lt_upper_bound; lia. }
    assert (Hprod : 0 <= target / 2 * ats < 2 ^ 256) by nia.
    rewrite (Z.mod_small (target / 2 * ats)) by exact Hprod.
    assert (Hquot : 0 <= target / 2 * ats / tts /\ 2 * (target / 2 * ats / tts) < 2 ^ 256).
    { split; [apply Z.div_pos; lia |].
      assert (target / 2 * ats / tts <= target / 2 * ats / 2).
      { apply Z.div_le_compat_l; lia. }
      pose proof (Z.mul_div_le (target / 2 * ats) 2 ltac:(lia)). lia. }
    rewrite Z.shiftl_mul_pow2 by lia. change (2 ^ 1) with 2.
    rewrite Z.mod_small by lia.
    rewrite (Z.mul_comm _ 2). reflexivity.
  - assert (Hsmall : target < 2 ^ 235) by (apply bits_le_bound; lia).
    rewrite (Z.mod_small (target * ats)) by nia. reflexivity.
Qed.

(** C2.  On the normal path, with the time span already clamped, the new
    target is computed from the decoding of [prev]'s bits: shifted right by
    one when its bit-length exceeds 235, multiplied by the time span,
    divided by the target time span, shifted back left by one if it was
    shifted, replaced by the limit when it exceeds it; the result is its
    compact encoding.  The target so computed, and the decoding of the
    returned bits, never exceed the limit. *)
Theorem GetNextWorkRequired_retarget (params : CChainParams)
  (last prev first : CBlockIndex) (pblock : CBlockHeader) :
  AllowMinDifficultyBlocks params = false ->
  nHeight last < 915235 \/ 955000 < nHeight last ->
  TargetSpacing params <> 0 ->
  0 < TargetTimespan params < 2 ^ 63 ->
  0 <= ProofOfWorkLimit params (hdr_GetAlgo pblock) < 2 ^ 256 ->
  GetLastBlockIndexForAlgo (Some last) (hdr_GetAlgo pblock) = Some prev ->
  Nat.iter (Z.to_nat (Z.quot (TargetTimespan params) (TargetSpacing params) - 1))
    (sameAlgoStep (hdr_GetAlgo pblock)) (Some prev) = Some first ->
  let limit := ProofOfWorkLimit params (hdr_GetAlgo pblock) in
  let target := U256.value (U256.SetCompact (nBits prev)) in
  let actualTimespan := limitAdjustmentStep params last (nTime prev - nTime first) in
  let bnNew := retargetedTarget limit target actualTimespan (TargetTimespan params) in
  GetNextWorkRequired params (Some last) pblock = Ok (U256.GetCompact bnNew)
  /\ 0 <= bnNew <= limit
  /\ U256.value (U256.SetCompact (U256.GetCompact bnNew)) <= limit
  /\ (target < 2 ^ 236 -> 0 <= actualTimespan < 2 ^ 21 ->
      2 <= TargetTimespan params ->
      bnNew = retargetedTargetExact limit target actualTimespan (TargetTimespan params)).
Proof.
  intros Hmin Hout Hsp Htts Hlim Hprev Hfirst limit target actualTimespan bnNew.
  assert (H63 : 2 ^ 63 < 2 ^ 256) by reflexivity.
  assert (Htarget : 0 <= target).
  { unfold target, U256.SetCompact. cbn [U256.value].
    destruct (Z.shiftr (nBits prev) 24 <=? 3).
    - apply Z.shiftr_nonneg. apply (mantissa_range (nBits prev)).
    - unfold U256.shl, U256.wrap. apply Z.mod_pos_bound. reflexivity. }
  assert (Hrange : 0 <= bnNew <= limit).
  { apply retargetedTarget_range; [apply Hlim | exact Htarget | lia]. }
  split; [| split; [exact Hrange | split]].
  - rewrite (GetNextWorkRequired_normal_path _ _ _ _ _ Hmin Hout Hsp Hprev Hfirst).
    apply retarget_value. lia.
  - pose proof (SetCompact_GetCompact_le bnNew) as Hle.
    fold limit in Hlim. lia.
  - intros H236 Hats H2. apply retargetedTarget_exact; lia.
Qed.

(** ** The theorems at work on the sample data *)

Lemma CheckProofOfWork_decides_witness :
  SkipProofOfWorkCheck sampleParams = false
  /\ CheckProofOfWork sampleParams (2 ^ 200) 0x1c0ffff0 0 = true
  /\ CheckProofOfWork sampleParams (2 ^ 230) 0x1c0ffff0 0 = false
  /\ CheckProofOfWork sampleParams 0 0x1e1fffff 0 = false.
Proof.
  pose proof (CheckProofOfWork_decides sampleParams (2 ^ 200) 0x1c0ffff0 0)
    as (_ & Hiff & _).
  pose proof (CheckProofOfWork_decides sampleParams (2 ^ 230) 0x1c0ffff0 0)
    as (_ & _ & Hhash & _).
  pose proof (CheckProofOfWork_decides sampleParams 0 0x1e1fffff 0)
    as (_ & _ & _ & Hrange).
  cbv zeta in Hiff, Hhash, Hrange.
  split; [reflexivity |]. split; [| split].
  - apply (Hiff eq_refl). vm_compute. repeat split; congruence.
  - apply not_true_is_false. intros Hc.
    apply (Hhash eq_refl) in Hc; vm_compute; try congruence.
    vm_compute in Hc. congruence.
  - apply (Hrange eq_refl). right. vm_compute. congruence.
Defined.

Lemma GetNextWorkRequired_override_witness :
  GetNextWorkRequired sampleParams
    (Some (sampleChain 12 915235 1500000000 150 0x1c0ffff0 0)) sampleHeader
  = Ok (hdr_nBits sampleHeader)
  /\ GetNextWorkRequired sampleParams
       (Some (sampleChain 12 955000 1500000000 150 0x1c0ffff0 0)) sampleHeader
     = Ok (hdr_nBits sampleHeader)
  /\ GetNextWorkRequired sampleParams
       (Some (sampleChain 12 915234 1500000000 150 0x1c0ffff0 0)) sampleHeader
     = GetNextWorkRequired_below sampleParams
         (Some (sampleChain 12 915234 1500000000 150 0x1c0ffff0 0)) sampleHeader
  /\ GetNextWorkRequired sampleParams
       (Some (sampleChain 12 955001 1500000000 150 0x1c0ffff0 0)) sampleHeader
     = GetNextWorkRequired_below sampleParams
         (Some (sampleChain 12 955001 1500000000 150 0x1c0ffff0 0)) sampleHeader.
Proof.
  split; [| split; [| split]].
  - apply (proj1 (GetNextWorkRequired_override sampleParams
                    (sampleChain 12 915235 1500000000 150 0x1c0ffff0 0)
                    sampleHeader)).
    simpl. lia.
  - apply (proj1 (GetNextWorkRequired_override sampleParams
                    (sampleChain 12 955000 1500000000 150 0x1c0ffff0 0)
                    sampleHeader)).
    simpl. lia.
  - apply (proj2 (GetNextWorkRequired_override sampleParams
                    (sampleChain 12 915234 1500000000 150 0x1c0ffff0 0)
                    sampleHeader)).
    left. reflexivity.
  - apply (proj2 (GetNextWorkRequired_override sampleParams
                    (sampleChain 12 955001 1500000000 150 0x1c0ffff0 0)
                    sampleHeader)).
    right. left. reflexivity.
Defined.

Lemma GetNextWorkRequired_ignores_candidate_witness :
  AllowMinDifficultyBlocks sampleParams = false
  /\ nHeight (sampleChain 12 1000 1500000000 150 0x1c0ffff0 0) < 915235
  /\ GetNextWorkRequired sampleParams
       (Some (sampleChain 12 1000 1500000000 150 0x1c0ffff0 0)) sampleHeader
     = GetNextWorkRequired sampleParams
         (Some (sampleChain 12 1000 1500000000 150 0x1c0ffff0 0))
         (mkBlockHeader 1600000000 0x1b00ffff 0).
Proof.
  split; [reflexivity |]. split; [simpl; lia |].
  apply GetNextWorkRequired_ignores_candidate.
  - reflexivity.
  - left. simpl. lia.
  - reflexivity.
Defined.

Lemma GetNextWorkRequired_min_difficulty_witness :
  AllowMinDifficultyBlocks sampleTestParams = true
  /\ Interval sampleTestParams <> 0
  /\ GetNextWorkRequired sampleTestParams
       (Some (sampleChain 12 1003 1500000000 150 0x1e0fffff 0))
       (mkBlockHeader 1500000301 0 0)
     = Ok (U256.GetCompact (ProofOfWorkLimit sampleTestParams 0))
  /\ exists stop,
       walkStopsAt (Interval sampleTestParams)
         (U256.GetCompact (ProofOfWorkLimit sampleTestParams 0))
         (sampleChain 12 1003 1500000000 150 0x1e0fffff 0) stop
       /\ GetNextWorkRequired sampleTestParams
            (Some (sampleChain 12 1003 1500000000 150 0x1e0fffff 0))
            (mkBlockHeader 1500000300 0 0)
          = Ok (nBits stop).
Proof.
  assert (Hint : Interval sampleTestParams <> 0) by (simpl; lia).
  assert (Hout : nHeight (sampleChain 12 1003 1500000000 150 0x1e0fffff 0) < 915235
                 \/ 955000 < nHeight (sampleChain 12 1003 1500000000 150 0x1e0fffff 0))
    by (left; simpl; lia).
  split; [reflexivity |]. split; [exact Hint |]. split.
  - apply (proj1 (GetNextWorkRequired_min_difficulty sampleTestParams
                    (sampleChain 12 1003 1500000000 150 0x1e0fffff 0)
                    (mkBlockHeader 1500000301 0 0) eq_refl Hout Hint)).
    simpl. lia.
  - destruct (proj2 (GetNextWorkRequired_min_difficulty sampleTestParams
                       (sampleChain 12 1003 1500000000 150 0x1e0fffff 0)
                       (mkBlockHeader 1500000300 0 0) eq_refl Hout Hint))
      as (stop & Hwalk & _ & Hrun).
    + simpl. lia.
    + exists stop. split; [exact Hwalk | exact Hrun].
Defined.

Lemma GetNextWorkRequired_window_witness :
  AllowMinDifficultyBlocks sampleParams = false
  /\ TargetSpacing sampleParams <> 0
  /\ GetNextWorkRequired sampleParams
       (Some (sampleChain 5 1000 1500000000 150 0x1c0ffff0 0)) sampleHeader
     = Ok (U256.GetCompact (ProofOfWorkLimit sampleParams 0))
  /\ GetNextWorkRequired sampleParams
       (Some (sampleChain 5 1000 1500000000 150 0x1c0ffff0 0))
       (mkBlockHeader 1500000150 0x1c0ffff0 1)
     = Ok (U256.GetCompact (ProofOfWorkLimit sampleParams 1))
  /\ GetNextWorkRequired sampleParams
       (Some (sampleChain 12 1000 1500000000 150 0x1c0ffff0 0)) sampleHeader
     = retarget sampleParams 0 0x1c0ffff0
         (limitAdjustmentStep sampleParams
            (sampleChain 12 1000 1500000000 150 0x1c0ffff0 0) 1350).
Proof.
  assert (Hsp : TargetSpacing sampleParams <> 0) by (simpl; lia).
  assert (Hout : forall n, nHeight (sampleChain n 1000 1500000000 150 0x1c0ffff0 0) < 915235
                 \/ 955000 < nHeight (sampleChain n 1000 1500000000 150 0x1c0ffff0 0))
    by (intros n; left; destruct n; simpl; lia).
  split; [reflexivity |]. split; [exact Hsp |]. split; [| split].
  - apply (proj1 (GetNextWorkRequired_window sampleParams
                    (sampleChain 5 1000 1500000000 150 0x1c0ffff0 0)
                    sampleHeader eq_refl (Hout 5%nat) Hsp)) with (k := 6%nat).
    + vm_compute. repeat constructor.
    + vm_compute. reflexivity.
  - apply (proj1 (GetNextWorkRequired_window sampleParams
                    (sampleChain 5 1000 1500000000 150 0x1c0ffff0 0)
                    (mkBlockHeader 1500000150 0x1c0ffff0 1)
                    eq_refl (Hout 5%nat) Hsp)) with (k := 0%nat).
    + vm_compute. repeat constructor.
    + vm_compute. reflexivity.
  - apply (proj2 (GetNextWorkRequired_window sampleParams
                    (sampleChain 12 1000 1500000000 150 0x1c0ffff0 0)
                    sampleHeader eq_refl (Hout 12%nat) Hsp))
      with (p := sampleChain 12 1000 1500000000 150 0x1c0ffff0 0)
           (f := sampleChain 3 991 1499998650 150 0x1c0ffff0 0).
    + vm_compute. reflexivity.
    + vm_compute. reflexivity.
Defined.

Lemma GetNextWorkRequired_adjustment_bounds_witness :
  AllowMinDifficultyBlocks sampleParams = false
  /\ TargetSpacing sampleParams <> 0
  /\ GetNextWorkRequired sampleParams
       (Some (sampleChain 12 1000 1500000000 150 0x1c0ffff0 0)) sampleHeader
     = retarget sampleParams 0 0x1c0ffff0 1470
  /\ GetNextWorkRequired sampleParams
       (Some (sampleChain 12 800000 1500000000 300 0x1c0ffff0 0)) sampleHeader
     = retarget sampleParams 0 0x1c0ffff0 1740.
Proof.
  assert (Hsp : TargetSpacing sampleParams <> 0) by (simpl; lia).
  split; [reflexivity |]. split; [exact Hsp |]. split.
  - refine (proj1 (GetNextWorkRequired_adjustment_bounds sampleParams
                     (sampleChain 12 1000 1500000000 150 0x1c0ffff0 0)
                     (sampleChain 12 1000 1500000000 150 0x1c0ffff0 0)
                     (sampleChain 3 991 1499998650 150 0x1c0ffff0 0)
                     sampleHeader eq_refl _ Hsp _ _)).
    + left. simpl. lia.
    + vm_compute. reflexivity.
    + vm_compute. reflexivity.
  - refine (proj1 (GetNextWorkRequired_adjustment_bounds sampleParams
                     (sampleChain 12 800000 1500000000 300 0x1c0ffff0 0)
                     (sampleChain 12 800000 1500000000 300 0x1c0ffff0 0)
                     (sampleChain 3 799991 1499997300 300 0x1c0ffff0 0)
                     sampleHeader eq_refl _ Hsp _ _)).
    + left. simpl. lia.
    + vm_compute. reflexivity.
    + vm_compute. reflexivity.
Defined.

Lemma GetNextWorkRequired_retarget_witness :
  AllowMinDifficultyBlocks sampleParams = false
  /\ 0 < TargetTimespan sampleParams < 2 ^ 63
  /\ 0 <= ProofOfWorkLimit sampleParams 0 < 2 ^ 256
  /\ GetNextWorkRequired sampleParams
       (Some (sampleChain 12 800000 1500000000 300 0x1e0fffff 0)) sampleHeader
     = Ok 0x1e0fffff
  /\ U256.value (U256.SetCompact 0x1e0fffff) <= ProofOfWorkLimit sampleParams 0
  /\ GetNextWorkRequired sampleParams
       (Some (sampleChain 12 800000 1500000000 300 0x1c0ffff0 0)) sampleHeader
     = Ok 0x1c128f49.
Proof.
  assert (Hsp : TargetSpacing sampleParams <> 0) by (simpl; lia).
  assert (Htts : 0 < TargetTimespan sampleParams < 2 ^ 63)
    by (split; reflexivity).
  assert (Hlim : 0 <= ProofOfWorkLimit sampleParams (hdr_GetAlgo sampleHeader) < 2 ^ 256)
    by (split; [vm_compute; congruence | reflexivity]).
  split; [reflexivity |]. split; [exact Htts |]. split; [exact Hlim |].
  pose proof (GetNextWorkRequired_retarget sampleParams
                (sampleChain 12 800000 1500000000 300 0x1e0fffff 0)
                (sampleChain 12 800000 1500000000 300 0x1e0fffff 0)
                (sampleChain 3 799991 1499997300 300 0x1e0fffff 0)
                sampleHeader eq_refl (or_introl eq_refl) Hsp Htts Hlim
                eq_refl eq_refl) as (Hrun & _ & Hle & _).
  pose proof (GetNextWorkRequired_retarget sampleParams
                (sampleChain 12 800000 1500000000 300 0x1c0ffff0 0)
                (sampleChain 12 800000 1500000000 300 0x1c0ffff0 0)
                (sampleChain 3 799991 1499997300 300 0x1c0ffff0 0)
                sampleHeader eq_refl (or_introl eq_refl) Hsp Htts Hlim
                eq_refl eq_refl) as (Hrun' & _).
  split; [| split].
  - rewrite Hrun. vm_compute. reflexivity.
  - vm_compute. congruence.
  - rewrite Hrun'. vm_compute. reflexivity.
Defined.

Lemma GetBlockWork_GetBlockProof_value_witness :
  GetBlockWork (mkBlockIndex 10 0 0x1d00ffff 1 None) = Ok 4295032833
  /\ GetBlockProof sampleWorkFactor (mkBlockIndex 10 0 0x1d00ffff 1 None)
     = Ok (4295032833 * 4096)
  /\ GetBlockWork (mkBlockIndex 10 0 0x1d80ffff 1 None) = Ok 0
  /\ GetBlockProof sampleWorkFactor (mkBlockIndex 10 0 0x23000001 1 None) = Ok 0.
Proof.
  pose proof (GetBlockWork_GetBlockProof_value sampleWorkFactor
                (mkBlockIndex 10 0 0x1d00ffff 1 None)) as [_ Hvalid].
  pose proof (GetBlockWork_GetBlockProof_value sampleWorkFactor
                (mkBlockIndex 10 0 0x1d80ffff 1 None)) as [Hneg _].
  pose proof (GetBlockWork_GetBlockProof_value sampleWorkFactor
                (mkBlockIndex 10 0 0x23000001 1 None)) as [Hovf _].
  cbv zeta in Hvalid, Hneg, Hovf.
  destruct Hvalid as (Hw & _ & _ & Hq & Hp & _);
    [reflexivity | reflexivity | vm_compute; congruence |].
  split; [| split; [| split]].
  - rewrite Hw. vm_compute. reflexivity.
  - rewrite Hp. vm_compute. reflexivity.
  - apply Hneg. left. reflexivity.
  - apply Hovf. right. left. reflexivity.
Defined.


(** * Further properties of src/pow.cpp *)

(** ** No fault on a present last node *)

Lemma findFirst_Some_start (algo : Z) (n : nat) (p : option CBlockIndex)
  (first : CBlockIndex) :
  findFirst algo n p = Some first -> exists prev, p = Some prev.
Proof.
  destruct p as [prev |]; intros H.
  - exists prev. reflexivity.
  - destruct n; discriminate H.
Qed.

Lemma retarget_Ok (params : CChainParams) (algo prevBits ats : Z) :
  0 < TargetTimespan params < 2 ^ 63 ->
  exists bits, retarget params algo prevBits ats = Ok bits.
Proof.
  intros Htts. assert (H63 : 2 ^ 63 < 2 ^ 256) by reflexivity.
  rewrite retarget_value by lia. eexists. reflexivity.
Qed.

(** With a last node, a non-zero target spacing and retarget interval and
    a positive target time span, [GetNextWorkRequired] returns bits on every
    path: in particular line 60 never reads through a null [pindexPrev],
    since a window start can only be found from a [pindexPrev] that
    exists. *)
Theorem GetNextWorkRequired_never_faults (params : CChainParams)
  (last : CBlockIndex) (pblock : CBlockHeader) :
  TargetSpacing params <> 0 ->
  Interval params <> 0 ->
  0 < TargetTimespan params < 2 ^ 63 ->
  exists bits, GetNextWorkRequired params (Some last) pblock = Ok bits.
Proof.
  intros Hsp Hint Htts.
  unfold GetNextWorkRequired. cbn [deref bind].
  destruct ((915235 <=? nHeight last) && (nHeight last <=? 955000));
    [eexists; reflexivity |].
  unfold GetNextWorkRequired_below.
  destruct (AllowMinDifficultyBlocks params).
  - destruct (hdr_GetBlockTime pblock
                >? GetBlockTime last + TargetSpacing params * 2);
      [eexists; reflexivity |].
    destruct (lastNonMinDifficulty_walks params
                (U256.GetCompact (ProofOfWorkLimit params (hdr_GetAlgo pblock)))
                Hint last) as [stop [Hrun _]].
    rewrite Hrun. eexists. reflexivity.
  - unfold int64_div.
    destruct (Z.eqb_spec (TargetSpacing params) 0) as [Hz | _]; [contradiction |].
    cbn [bind].
    destruct (findFirst (hdr_GetAlgo pblock)
                (Z.to_nat (Z.quot (TargetTimespan params) (TargetSpacing params) - 1))
                (GetLastBlockIndexForAlgo (Some last) (hdr_GetAlgo pblock)))
      as [first |] eqn:Hfirst; [| eexists; reflexivity].
    destruct (findFirst_Some_start _ _ _ _ Hfirst) as [prev Hprev].
    rewrite Hprev. cbn [deref bind].
    apply retarget_Ok. exact Htts.
Qed.

(** ** The bound on the normal path, for every chain *)

(** Without the minimum-difficulty rule and outside the override range,
    whatever the chain, the returned bits decode to a target between 0 and
    the limit: both when the window is found and when the history is too
    short. *)
Theorem GetNextWorkRequired_within_limit (params : CChainParams)
  (last : CBlockIndex) (pblock : CBlockHeader) :
  AllowMinDifficultyBlocks params = false ->
  nHeight last < 915235 \/ 955000 < nHeight last ->
  TargetSpacing params <> 0 ->
  0 < TargetTimespan params < 2 ^ 63 ->
  0 <= ProofOfWorkLimit params (hdr_GetAlgo pblock) < 2 ^ 256 ->
  exists bits,
    GetNextWorkRequired params (Some last) pblock = Ok bits
    /\ 0 <= U256.value (U256.SetCompact bits)
       <= ProofOfWorkLimit params (hdr_GetAlgo pblock).
Proof.
  intros Hmin Hout Hsp Htts Hlim.
  assert (H63 : 2 ^ 63 < 2 ^ 256) by reflexivity.
  rewrite (GetNextWorkRequired_outside _ _ _ Hout).
  unfold GetNextWorkRequired_below. rewrite Hmin. unfold int64_div.
  destruct (Z.eqb_spec (TargetSpacing params) 0) as [Hz | _]; [contradiction |].
  cbn [bind].
  destruct (findFirst (hdr_GetAlgo pblock)
              (Z.to_nat (Z.quot (TargetTimespan params) (TargetSpacing params) - 1))
              (GetLastBlockIndexForAlgo (Some last) (hdr_GetAlgo pblock)))
    as [first |] eqn:Hfirst.
  - destruct (findFirst_Some_start _ _ _ _ Hfirst) as [prev Hprev].
    rewrite Hprev. cbn [deref bind].
    rewrite retarget_value by lia.
    eexists. split; [reflexivity |].
    set (bnNew := retargetedTarget _ _ _ _).
    assert (Hrange : 0 <= bnNew <= ProofOfWorkLimit params (hdr_GetAlgo pblock)).
    { apply retargetedTarget_range; [lia | | lia].
      unfold U256.SetCompact. cbn [U256.value].
      destruct (Z.shiftr (nBits prev) 24 <=? 3).
      - apply Z.shiftr_nonneg. apply (mantissa_range (nBits prev)).
      - unfold U256.shl, U256.wrap. apply Z.mod_pos_bound. reflexivity. }
    pose proof (SetCompact_GetCompact_le bnNew ltac:(lia)). lia.
  - eexists. split; [reflexivity |].
    pose proof (SetCompact_GetCompact_le
                  (ProofOfWorkLimit params (hdr_GetAlgo pblock)) Hlim).
    lia.
Qed.

(** ** Too short a chain *)

Lemma lastBlockForAlgo_chainLength (algo : Z) (node found : CBlockIndex) :
  lastBlockForAlgo node algo = Some found ->
  (chainLength found <= chainLength node)%nat.
Proof.
  induction node as [h t b a | h t b a parent IH] using CBlockIndex_chain_ind;
    cbn [lastBlockForAlgo]; destruct (a =? algo); intros H.
  - injection H as <-. apply le_n.
  - discriminate H.
  - injection H as <-. apply le_n.
  - apply IH in H. cbn [chainLength]. lia.
Qed.

Lemma chainLength_pos (node : CBlockIndex) : (1 <= chainLength node)%nat.
Proof.
  destruct node as [h t b a [parent |]]; cbn [chainLength]; lia.
Qed.

Lemma sameAlgoStep_chainLength (algo : Z) (node next : CBlockIndex) :
  sameAlgoStep algo (Some node) = Some next ->
  (chainLength next < chainLength node)%nat.
Proof.
  destruct node as [h t b a [parent |]]; cbn [sameAlgoStep pprev GetLastBlockIndexForAlgo].
  - intros H. apply lastBlockForAlgo_chainLength in H.
    cbn [chainLength]. lia.
  - discriminate.
Qed.

Lemma sameAlgoStep_iter_chainLength (algo : Z) (k : nat) (node reached : CBlockIndex) :
  Nat.iter k (sameAlgoStep algo) (Some node) = Some reached ->
  (chainLength reached + k <= chainLength node)%nat.
Proof.
  revert reached. induction k as [| k IH]; intros reached H.
  - injection H as <-. lia.
  - rewrite Nat.iter_succ in H.
    destruct (Nat.iter k (sameAlgoStep algo) (Some node)) as [mid |] eqn:Hmid.
    + specialize (IH mid eq_refl).
      apply sameAlgoStep_chainLength in H. lia.
    + discriminate H.
Qed.

(** Without the minimum-difficulty rule and outside the override range, a
    chain with fewer nodes than the averaging window has blocks gets the
    limit's compact form, whatever its blocks are. *)
Theorem GetNextWorkRequired_short_chain (params : CChainParams)
  (last : CBlockIndex) (pblock : CBlockHeader) :
  AllowMinDifficultyBlocks params = false ->
  nHeight last < 915235 \/ 955000 < nHeight last ->
  TargetSpacing params <> 0 ->
  Z.of_nat (chainLength last)
    < Z.quot (TargetTimespan params) (TargetSpacing params) ->
  GetNextWorkRequired params (Some last) pblock
  = Ok (U256.GetCompact (ProofOfWorkLimit params (hdr_GetAlgo pblock))).
Proof.
  intros Hmin Hout Hsp Hshort.
  rewrite (GetNextWorkRequired_outside _ _ _ Hout).
  unfold GetNextWorkRequired_below. rewrite Hmin. unfold int64_div.
  destruct (Z.eqb_spec (TargetSpacing params) 0) as [Hz | _]; [contradiction |].
  cbn [bind]. rewrite findFirst_iter.
  set (steps := Z.to_nat (Z.quot (TargetTimespan params) (TargetSpacing params) - 1)).
  destruct (GetLastBlockIndexForAlgo (Some last) (hdr_GetAlgo pblock))
    as [prev |] eqn:Hprev.
  - destruct (Nat.iter steps (sameAlgoStep (hdr_GetAlgo pblock)) (Some prev))
      as [first |] eqn:Hfirst; [| reflexivity].
    exfalso.
    apply sameAlgoStep_iter_chainLength in Hfirst.
    cbn [GetLastBlockIndexForAlgo] in Hprev.
    apply lastBlockForAlgo_chainLength in Hprev.
    pose proof (chainLength_pos first). unfold steps in Hfirst. lia.
  - rewrite sameAlgoStep_iter_None. reflexivity.
Qed.

(** ** The validator and the work of what it accepts *)

Lemma CheckProofOfWork_true_inv (params : CChainParams) (hash nBits algo : Z) :
  SkipProofOfWorkCheck params = false ->
  CheckProofOfWork params hash nBits algo = true ->
  U256.fNegative (U256.SetCompact nBits) = false
  /\ U256.fOverflow (U256.SetCompact nBits) = false
  /\ U256.value (U256.SetCompact nBits) <> 0
  /\ U256.value (U256.SetCompact nBits) <= ProofOfWorkLimit params algo
  /\ hash <= U256.value (U256.SetCompact nBits).
Proof.
  intros Hskip. unfold CheckProofOfWork. rewrite Hskip.
  generalize (U256.SetCompact nBits). intros d.
  destruct (U256.fNegative d); cbn [orb]; [discriminate |].
  destruct (Z.eqb_spec (U256.value d) 0) as [Hz | Hz]; cbn [orb]; [discriminate |].
  destruct (U256.fOverflow d); cbn [orb]; [discriminate |].
  destruct (Z.gtb_spec (U256.value d) (ProofOfWorkLimit params algo)) as [Hgt | Hle];
    [discriminate |].
  destruct (Z.gtb_spec hash (U256.value d)) as [Hh | Hh]; [discriminate |].
  intros _. repeat split; try assumption; lia.
Qed.

(** A smaller hash passes wherever a larger one does: for the same bits and
    algorithm, if [CheckProofOfWork] accepts [hash] it accepts every
    [hash'] below it. *)
Theorem CheckProofOfWork_hash_monotone (params : CChainParams)
  (hash hash' nBits algo : Z) :
  hash' <= hash ->
  CheckProofOfWork params hash nBits algo = true ->
  CheckProofOfWork params hash' nBits algo = true.
Proof.
  intros Hle. unfold CheckProofOfWork.
  destruct (SkipProofOfWorkCheck params); [reflexivity |].
  generalize (U256.SetCompact nBits). intros d.
  destruct (U256.fNegative d || (U256.value d =? 0) || U256.fOverflow d
            || (U256.value d >? ProofOfWorkLimit params algo));
    [discriminate |].
  destruct (Z.gtb_spec hash (U256.value d)) as [Hh | Hh]; [discriminate |].
  intros _.
  destruct (Z.gtb_spec hash' (U256.value d)) as [Hh' | Hh']; [lia | reflexivity].
Qed.

(** Bits that the validator accepts, for some hash, are worth at least the
    work of the algorithm's limit, and at least 1: [GetBlockWork] of a block
    with those bits is no less than the quotient of 2^256 by [limit + 1]. *)
Theorem CheckProofOfWork_accepted_work (params : CChainParams)
  (hash algo : Z) (block : CBlockIndex) :
  SkipProofOfWorkCheck params = false ->
  CheckProofOfWork params hash (nBits block) algo = true ->
  exists w,
    GetBlockWork block = Ok w
    /\ 1 <= w
    /\ 2 ^ 256 / (ProofOfWorkLimit params algo + 1) <= w.
Proof.
  intros Hskip Hcheck.
  destruct (CheckProofOfWork_true_inv _ _ _ _ Hskip Hcheck)
    as (Hn & Ho & Hz & Hl & _).
  pose proof (SetCompact_value_range (nBits block) Ho) as [H0 Hlt].
  set (target := U256.value (U256.SetCompact (nBits block))) in *.
  destruct (workOfTarget_value target ltac:(lia) Hlt) as (Hw & _ & _ & Hq).
  exists (2 ^ 256 / (target + 1)).
  split; [| split].
  - unfold GetBlockWork. rewrite (valid_target_test _ Hn Ho Hz).
    fold target. rewrite Hw, Hq. reflexivity.
  - assert (0 < 2 ^ 256 / (target + 1)); [| lia].
    apply Z.div_str_pos. lia.
  - apply Z.div_le_compat_l; [apply Z.pow_nonneg; lia | lia].
Qed.

(** ** The range of the work *)

(** [GetBlockWork] never faults and never exceeds 2^255; it is 0 exactly
    when the decoding of the bits reports negative or overflow or gives
    zero, so that every valid target is worth at least 1. *)
Theorem GetBlockWork_range (block : CBlockIndex) :
  exists w,
    GetBlockWork block = Ok w
    /\ 0 <= w <= 2 ^ 255
    /\ (w = 0 <->
        U256.fNegative (U256.SetCompact (nBits block)) = true
        \/ U256.fOverflow (U256.SetCompact (nBits block)) = true
        \/ U256.value (U256.SetCompact (nBits block)) = 0).
Proof.
  unfold GetBlockWork.
  destruct (U256.fNegative (U256.SetCompact (nBits block))) eqn:Hn;
    cbn [orb].
  { exists 0. split; [reflexivity |]. split; [split; [lia | apply Z.pow_nonneg; lia] |].
    split; [intros _; left; reflexivity | reflexivity]. }
  destruct (U256.fOverflow (U256.SetCompact (nBits block))) eqn:Ho;
    cbn [orb].
  { exists 0. split; [reflexivity |]. split; [split; [lia | apply Z.pow_nonneg; lia] |].
    split; [intros _; right; left; reflexivity | reflexivity]. }
  destruct (Z.eqb_spec (U256.value (U256.SetCompact (nBits block))) 0)
    as [Hz | Hz].
  { exists 0. split; [reflexivity |]. split; [split; [lia | apply Z.pow_nonneg; lia] |].
    split; [intros _; right; right; exact Hz | reflexivity]. }
  pose proof (SetCompact_value_range (nBits block) Ho) as [H0 Hlt].
  set (target := U256.value (U256.SetCompact (nBits block))) in *.
  destruct (workOfTarget_value target ltac:(lia) Hlt) as (Hw & _ & _ & Hq).
  exists (2 ^ 256 / (target + 1)).
  assert (Hpos : 0 < 2 ^ 256 / (target + 1)) by (apply Z.div_str_pos; lia).
  assert (Hhalf : 2 ^ 256 / (target + 1) <= 2 ^ 256 / 2).
  { apply Z.div_le_compat_l; [apply Z.pow_nonneg; lia | lia]. }
  change (2 ^ 256 / 2) with (2 ^ 255) in Hhalf.
  split; [rewrite Hw, Hq; reflexivity |].
  split; [lia |].
  split; [lia |].
  intros [H | [H | H]]; [discriminate H | discriminate H | contradiction].
Qed.

(** [GetBlockProof] is [GetBlockWork] times the work factor of the block,
    on the 256-bit type, for every block: the two copies of the computation
    agree, in the invalid cases too. *)
Theorem GetBlockProof_scales_GetBlockWork (GetAlgoWorkFactor : CBlockIndex -> Z)
  (block : CBlockIndex) :
  exists w,
    GetBlockWork block = Ok w
    /\ GetBlockProof GetAlgoWorkFactor block
       = Ok ((w * GetAlgoWorkFactor block) mod 2 ^ 256).
Proof.
  unfold GetBlockWork, GetBlockProof.
  destruct (U256.fNegative (U256.SetCompact (nBits block))
            || U256.fOverflow (U256.SetCompact (nBits block))
            || (U256.value (U256.SetCompact (nBits block)) =? 0)) eqn:Htest.
  - exists 0. split; [reflexivity |].
    rewrite Z.mul_0_l, Z.mod_0_l; [reflexivity |].
    intros H. discriminate H.
  - apply orb_false_iff in Htest. destruct Htest as [Htest Hz].
    apply orb_false_iff in Htest. destruct Htest as [Hn Ho].
    apply Z.eqb_neq in Hz.
    pose proof (SetCompact_value_range (nBits block) Ho) as [H0 Hlt].
    set (target := U256.value (U256.SetCompact (nBits block))) in *.
    destruct (workOfTarget_value target ltac:(lia) Hlt) as (Hw & _ & _ & _).
    rewrite Hw. cbn [bind]. eexists. split; reflexivity.
Qed.

(** ** A window that took the target time span *)

Lemma limitAdjustmentStep_fixed (params : CChainParams) (last : CBlockIndex) :
  0 <= TargetTimespan params ->
  0 <= MaxAdjustUpV1 params -> 0 <= MaxAdjustUpV2 params ->
  0 <= MaxAdjustDownV1 params -> 0 <= MaxAdjustDownV2 params ->
  limitAdjustmentStep params last (TargetTimespan params) = TargetTimespan params.
Proof.
  intros Ht Hu1 Hu2 Hd1 Hd2.
  rewrite limitAdjustmentStep_clamp. unfold clampTimespan.
  set (v2 := BlockDiffAdjustV2 params <=? nHeight last + 1).
  set (up := if v2 then MaxAdjustUpV2 params else MaxAdjustUpV1 params).
  set (down := if v2 then MaxAdjustDownV2 params else MaxAdjustDownV1 params).
  assert (Hup : 0 <= up) by (unfold up; destruct v2; assumption).
  assert (Hdown : 0 <= down) by (unfold down; destruct v2; assumption).
  set (T := TargetTimespan params) in *.
  assert (Hlo : Z.quot (T * (100 - up)) 100 <= T).
  { pose proof (Z.quot_rem' (T * (100 - up)) 100) as Hqr.
    destruct (Z.le_gt_cases 0 (T * (100 - up))) as [Hnn | Hneg].
    - pose proof (Z.rem_bound_pos (T * (100 - up)) 100 Hnn ltac:(lia)). nia.
    - pose proof (Z.rem_bound_pos_neg (T * (100 - up)) 100 ltac:(lia) ltac:(lia)). nia. }
  assert (Hhi : T <= Z.quot (T * (100 + down)) 100).
  { pose proof (Z.quot_rem' (T * (100 + down)) 100) as Hqr.
    pose proof (Z.rem_bound_pos (T * (100 + down)) 100 ltac:(nia) ltac:(lia)).
    nia. }
  lia.
Qed.

(** On the normal path, when the window took exactly the target time span,
    the target of [prev] is kept: for a target of at most 235 bits that
    does not exceed the limit, the result is the compact form of the target
    that [prev]'s bits decode to, and [prev]'s own bits when they are that
    compact form. *)
Theorem GetNextWorkRequired_steady (params : CChainParams)
  (last prev first : CBlockIndex) (pblock : CBlockHeader) :
  AllowMinDifficultyBlocks params = false ->
  nHeight last < 915235 \/ 955000 < nHeight last ->
  TargetSpacing params <> 0 ->
  0 < TargetTimespan params < 2 ^ 21 ->
  0 <= MaxAdjustUpV1 params -> 0 <= MaxAdjustUpV2 params ->
  0 <= MaxAdjustDownV1 params -> 0 <= MaxAdjustDownV2 params ->
  GetLastBlockIndexForAlgo (Some last) (hdr_GetAlgo pblock) = Some prev ->
  Nat.iter (Z.to_nat (Z.quot (TargetTimespan params) (TargetSpacing params) - 1))
    (sameAlgoStep (hdr_GetAlgo pblock)) (Some prev) = Some first ->
  nTime prev - nTime first = TargetTimespan params ->
  U256.bits (U256.value (U256.SetCompact (nBits prev))) <= 235 ->
  U256.value (U256.SetCompact (nBits prev))
    <= ProofOfWorkLimit params (hdr_GetAlgo pblock) ->
  GetNextWorkRequired params (Some last) pblock
  = Ok (U256.GetCompact (U256.value (U256.SetCompact (nBits prev))))
  /\ (U256.GetCompact (U256.value (U256.SetCompact (nBits prev))) = nBits prev ->
      GetNextWorkRequired params (Some last) pblock = Ok (nBits prev)).
Proof.
  intros Hmin Hout Hsp Htts Hu1 Hu2 Hd1 Hd2 Hprev Hfirst Hspan Hbits Hlim.
  assert (Hrun : GetNextWorkRequired params (Some last) pblock
                 = Ok (U256.GetCompact (U256.value (U256.SetCompact (nBits prev))))).
  { rewrite (GetNextWorkRequired_normal_path _ _ _ _ _ Hmin Hout Hsp Hprev Hfirst).
    rewrite Hspan, limitAdjustmentStep_fixed by (assumption || lia).
    assert (H21 : 2 ^ 21 < 2 ^ 256) by reflexivity.
    rewrite retarget_value by lia. do 2 f_equal.
    set (target := U256.value (U256.SetCompact (nBits prev))) in *.
    assert (Ht0 : 0 <= target).
    { unfold target, U256.SetCompact. cbn [U256.value].
      destruct (Z.shiftr (nBits prev) 24 <=? 3).
      - apply Z.shiftr_nonneg. apply (mantissa_range (nBits prev)).
      - unfold U256.shl, U256.wrap. apply Z.mod_pos_bound. reflexivity. }
    assert (Ht : target < 2 ^ 235) by (apply bits_le_bound; lia).
    unfold retargetedTarget.
    destruct (Z.ltb_spec 235 (U256.bits target)) as [Hs | _]; [lia |].
    rewrite (Z.mod_small (TargetTimespan params)) by lia.
    assert (H256 : 2 ^ 256 = 2 ^ 235 * 2 ^ 21) by reflexivity.
    assert (H235 : 0 < 2 ^ 235) by reflexivity.
    rewrite (Z.mod_small (target * TargetTimespan params)) by nia.
    rewrite Z.div_mul by lia.
    destruct (Z.ltb_spec (ProofOfWorkLimit params (hdr_GetAlgo pblock)) target);
      [lia | reflexivity]. }
  split; [exact Hrun |].
  intros Hcanon. rewrite Hrun, Hcanon. reflexivity.
Qed.

(** ** The minimum-difficulty rule returns bits of the chain *)

Lemma lastNonMinDifficulty_ancestor (params : CChainParams) (limitBits : Z)
  (node stop : CBlockIndex) :
  lastNonMinDifficulty params limitBits node = Ok stop ->
  ancestorOrSelf node stop.
Proof.
  revert stop.
  induction node as [h t b a | h t b a parent IH] using CBlockIndex_chain_ind;
    intros stop; cbn [lastNonMinDifficulty].
  - intros H. injection H as <-. apply ancestor_self.
  - unfold int_rem. destruct (Interval params =? 0); cbn [bind]; [discriminate |].
    destruct (negb (Z.rem h (Interval params) =? 0) && (b =? limitBits)).
    + intros H. apply ancestor_parent with (parent := parent);
        [reflexivity | apply IH; exact H].
    + intros H. injection H as <-. apply ancestor_self.
Qed.

(** With the minimum-difficulty rule and outside the override range, the
    result is either the limit's compact form or the bits of the last node
    or of one of its ancestors: the rule never makes up a difficulty. *)
Theorem GetNextWorkRequired_min_difficulty_source (params : CChainParams)
  (last : CBlockIndex) (pblock : CBlockHeader) (bits : Z) :
  AllowMinDifficultyBlocks params = true ->
  nHeight last < 915235 \/ 955000 < nHeight last ->
  GetNextWorkRequired params (Some last) pblock = Ok bits ->
  bits = U256.GetCompact (ProofOfWorkLimit params (hdr_GetAlgo pblock))
  \/ exists node, ancestorOrSelf last node /\ nBits node = bits.
Proof.
  intros Hmin Hout.
  rewrite (GetNextWorkRequired_outside _ _ _ Hout).
  unfold GetNextWorkRequired_below. rewrite Hmin.
  destruct (hdr_GetBlockTime pblock
              >? GetBlockTime last + TargetSpacing params * 2).
  - intros H. left. congruence.
  - intros H. apply bind_Ok_inv in H. destruct H as (stop & Hrun & Hret).
    right. exists stop. split.
    + exact (lastNonMinDifficulty_ancestor _ _ _ _ Hrun).
    + congruence.
Qed.

(** ** The further properties at work on the sample data *)

Lemma GetNextWorkRequired_never_faults_witness :
  TargetSpacing sampleParams <> 0
  /\ Interval sampleParams <> 0
  /\ 0 < TargetTimespan sampleParams < 2 ^ 63
  /\ (exists bits,
        GetNextWorkRequired sampleParams
          (Some (sampleChain 12 1000 1500000000 150 0x1c0ffff0 0)) sampleHeader
        = Ok bits)
  /\ (exists bits,
        GetNextWorkRequired sampleTestParams
          (Some (sampleChain 12 1003 1500000000 150 0x1e0fffff 0)) sampleHeader
        = Ok bits).
Proof.
  assert (Hsp : TargetSpacing sampleParams <> 0) by (simpl; lia).
  assert (Hint : Interval sampleParams <> 0) by (simpl; lia).
  assert (Htts : 0 < TargetTimespan sampleParams < 2 ^ 63)
    by (split; reflexivity).
  split; [exact Hsp |]. split; [exact Hint |]. split; [exact Htts |]. split.
  - apply GetNextWorkRequired_never_faults; assumption.
  - apply GetNextWorkRequired_never_faults; assumption.
Defined.

Lemma GetNextWorkRequired_within_limit_witness :
  AllowMinDifficultyBlocks sampleParams = false
  /\ 0 <= ProofOfWorkLimit sampleParams 0 < 2 ^ 256
  /\ exists bits,
       GetNextWorkRequired sampleParams
         (Some (sampleChain 12 800000 1500000000 300 0x1e0fffff 0)) sampleHeader
       = Ok bits
       /\ 0 <= U256.value (U256.SetCompact bits) <= ProofOfWorkLimit sampleParams 0.
Proof.
  assert (Hlim : 0 <= ProofOfWorkLimit sampleParams (hdr_GetAlgo sampleHeader) < 2 ^ 256)
    by (split; [vm_compute; congruence | reflexivity]).
  split; [reflexivity |]. split; [exact Hlim |].
  apply (GetNextWorkRequired_within_limit sampleParams
           (sampleChain 12 800000 1500000000 300 0x1e0fffff 0) sampleHeader).
  - reflexivity.
  - left. reflexivity.
  - simpl. lia.
  - split; reflexivity.
  - exact Hlim.
Defined.

Lemma GetNextWorkRequired_short_chain_witness :
  Z.of_nat (chainLength (sampleChain 8 1000 1500000000 150 0x1c0ffff0 0))
    < Z.quot (TargetTimespan sampleParams) (TargetSpacing sampleParams)
  /\ GetNextWorkRequired sampleParams
       (Some (sampleChain 8 1000 1500000000 150 0x1c0ffff0 0)) sampleHeader
     = Ok (U256.GetCompact (ProofOfWorkLimit sampleParams 0)).
Proof.
  split; [reflexivity |].
  apply (GetNextWorkRequired_short_chain sampleParams
           (sampleChain 8 1000 1500000000 150 0x1c0ffff0 0) sampleHeader).
  - reflexivity.
  - left. reflexivity.
  - simpl. lia.
  - reflexivity.
Defined.

Lemma CheckProofOfWork_hash_monotone_witness :
  CheckProofOfWork sampleParams (2 ^ 200) 0x1c0ffff0 0 = true
  /\ CheckProofOfWork sampleParams 12345 0x1c0ffff0 0 = true.
Proof.
  assert (H : CheckProofOfWork sampleParams (2 ^ 200) 0x1c0ffff0 0 = true)
    by (vm_compute; reflexivity).
  split; [exact H |].
  apply (CheckProofOfWork_hash_monotone sampleParams (2 ^ 200) 12345 0x1c0ffff0 0);
    [vm_compute; congruence | exact H].
Defined.

Lemma CheckProofOfWork_accepted_work_witness :
  SkipProofOfWorkCheck sampleParams = false
  /\ CheckProofOfWork sampleParams (2 ^ 200) 0x1c0ffff0 0 = true
  /\ exists w,
       GetBlockWork (blockWithBits 0x1c0ffff0) = Ok w
       /\ 1 <= w
       /\ 2 ^ 256 / (ProofOfWorkLimit sampleParams 0 + 1) <= w.
Proof.
  assert (H : CheckProofOfWork sampleParams (2 ^ 200) 0x1c0ffff0 0 = true)
    by (vm_compute; reflexivity).
  split; [reflexivity |]. split; [exact H |].
  apply (CheckProofOfWork_accepted_work sampleParams (2 ^ 200) 0
           (blockWithBits 0x1c0ffff0) eq_refl H).
Defined.

Lemma GetNextWorkRequired_steady_witness :
  nTime (mkBlockIndex 1000 1500000000 0x1c0ffff0 0
           (Some (sampleChain 11 999 1499999700 150 0x1c0ffff0 0)))
  - nTime (sampleChain 3 991 1499998500 150 0x1c0ffff0 0)
  = TargetTimespan sampleParams
  /\ GetNextWorkRequired sampleParams
       (Some (mkBlockIndex 1000 1500000000 0x1c0ffff0 0
                (Some (sampleChain 11 999 1499999700 150 0x1c0ffff0 0))))
       sampleHeader
     = Ok 0x1c0ffff0.
Proof.
  split; [reflexivity |].
  refine (proj2 (GetNextWorkRequired_steady sampleParams
                   (mkBlockIndex 1000 1500000000 0x1c0ffff0 0
                      (Some (sampleChain 11 999 1499999700 150 0x1c0ffff0 0)))
                   (mkBlockIndex 1000 1500000000 0x1c0ffff0 0
                      (Some (sampleChain 11 999 1499999700 150 0x1c0ffff0 0)))
                   (sampleChain 3 991 1499998500 150 0x1c0ffff0 0)
                   sampleHeader eq_refl (or_introl eq_refl) _ _ _ _ _ _
                   _ _ eq_refl _ _) _).
  - simpl. lia.
  - split; reflexivity.
  - simpl. lia.
  - simpl. lia.
  - simpl. lia.
  - simpl. lia.
  - vm_compute. reflexivity.
  - vm_compute. reflexivity.
  - vm_compute. congruence.
  - vm_compute. congruence.
  - vm_compute. reflexivity.
Defined.

Lemma GetNextWorkRequired_min_difficulty_source_witness :
  AllowMinDifficultyBlocks sampleTestParams = true
  /\ GetNextWorkRequired sampleTestParams
       (Some (sampleChain 12 1003 1500000000 150 0x1c0ffff0 0)) sampleHeader
     = Ok 0x1c0ffff0
  /\ (0x1c0ffff0 = U256.GetCompact (ProofOfWorkLimit sampleTestParams 0)
      \/ exists node,
           ancestorOrSelf (sampleChain 12 1003 1500000000 150 0x1c0ffff0 0) node
           /\ nBits node = 0x1c0ffff0).
Proof.
  assert (H : GetNextWorkRequired sampleTestParams
                (Some (sampleChain 12 1003 1500000000 150 0x1c0ffff0 0))
                sampleHeader = Ok 0x1c0ffff0)
    by (vm_compute; reflexivity).
  split; [reflexivity |]. split; [exact H |].
  apply (GetNextWorkRequired_min_difficulty_source sampleTestParams
           (sampleChain 12 1003 1500000000 150 0x1c0ffff0 0) sampleHeader
           0x1c0ffff0 eq_refl (or_introl eq_refl) H).
Defined.
